(** * rss_daily_pipeline: a shallow embedding and its verified properties

    The development follows [src/rss_daily_pipeline.py] section by section:
    utilities, database, feed parsing, article HTML extraction, translation
    and the core pipeline.

    Conventions of the embedding.
    - A Python [str] is a Rocq [string]; a character stands for the code point
      of the same number, so the strings covered are those over code points
      below 256.  [Optional[str]] is [option string].
    - Python truthiness is written out ([truthy]): [None] and the empty string
      are falsy.
    - A [dict] whose iteration order can be observed (the feed item handed to
      [json.dumps]) is an association list in insertion order; the three
      SQLite tables are finite maps keyed by their primary key.
    - Everything the program obtains from outside (clock, HTTP, the translation
      service) is read from an oracle indexed by the number of outside calls
      made so far; an uncaught exception ends the run ([Raised]). *)

From Stdlib Require Import String Ascii List NArith ZArith Lia Bool Permutation.
From Stdlib Require Import DecimalString.
From stdpp Require Import gmap strings.

#[local] Set Warnings "-register-all".

Local Open Scope string_scope.
Local Open Scope N_scope.

(* ===================================================================== *)
(** ** Text primitives of the Python runtime *)
(* ===================================================================== *)

Module Text.

(** [str.isspace] / the regular expression class [\s] on code points < 256. *)
Definition isspace (c : ascii) : bool :=
  let n := N_of_ascii c in
  ((9 <=? n) && (n <=? 13)) || ((28 <=? n) && (n <=? 32))
  || (n =? 133) || (n =? 160).

(** The class [\d]. *)
Definition isdigit (c : ascii) : bool :=
  let n := N_of_ascii c in (48 <=? n) && (n <=? 57).

(** The class [\w] (used by the word boundary [\b]). *)
Definition isword (c : ascii) : bool :=
  let n := N_of_ascii c in
  isdigit c || ((65 <=? n) && (n <=? 90)) || ((97 <=? n) && (n <=? 122))
  || (n =? 95) || (n =? 170) || (n =? 178) || (n =? 179) || (n =? 181)
  || (n =? 185) || (n =? 186) || ((188 <=? n) && (n <=? 190))
  || ((192 <=? n) && (n <=? 214)) || ((216 <=? n) && (n <=? 246))
  || (248 <=? n).

(** [s.lstrip(chars)], [s.rstrip(chars)] for a character class [p]. *)
Fixpoint lstrip_by (p : ascii -> bool) (s : string) : string :=
  match s with
  | EmptyString => EmptyString
  | String c s' => if p c then lstrip_by p s' else s
  end.

Fixpoint rstrip_by (p : ascii -> bool) (s : string) : string :=
  match s with
  | EmptyString => EmptyString
  | String c s' =>
      match rstrip_by p s' with
      | EmptyString => if p c then EmptyString else String c EmptyString
      | r => String c r
      end
  end.

(** [s.strip()] *)
Definition strip (s : string) : string := rstrip_by isspace (lstrip_by isspace s).

(** [re.sub(r'\s+', ' ', s)]: [in_run] tells that the previous character
    belonged to the run of white space being replaced. *)
Fixpoint sub_ws (in_run : bool) (s : string) : string :=
  match s with
  | EmptyString => EmptyString
  | String c s' =>
      if isspace c
      then (if in_run then sub_ws true s' else String " " (sub_ws true s'))
      else String c (sub_ws false s')
  end.

(** [str.lower] on code points < 256: A-Z and the Latin-1 capitals. *)
Definition lower_char (c : ascii) : ascii :=
  let n := N_of_ascii c in
  if ((65 <=? n) && (n <=? 90))
     || ((192 <=? n) && (n <=? 222) && negb (n =? 215))
  then ascii_of_N (n + 32) else c.

Fixpoint lower (s : string) : string :=
  match s with
  | EmptyString => EmptyString
  | String c s' => String (lower_char c) (lower s')
  end.

(** [c in s] for a character, [sub in s] for a string. *)
Fixpoint has_char (c : ascii) (s : string) : bool :=
  match s with
  | EmptyString => false
  | String d s' => Ascii.eqb c d || has_char c s'
  end.

Fixpoint contains (sub s : string) : bool :=
  String.prefix sub s ||
  match s with
  | EmptyString => false
  | String _ s' => contains sub s'
  end.

(** [s[:n]] *)
Fixpoint take (n : nat) (s : string) : string :=
  match n, s with
  | S n', String c s' => String c (take n' s')
  | _, _ => EmptyString
  end.

(** [sep.join(parts)] *)
Fixpoint join (sep : string) (parts : list string) : string :=
  match parts with
  | nil => ""
  | p :: nil => p
  | p :: rest => p ++ sep ++ join sep rest
  end.

Definition hexdigit (n : N) : ascii :=
  ascii_of_N (if n <? 10 then 48 + n else 87 + n).

(** [text.encode("utf-8", "ignore")] on code points < 256. *)
Fixpoint utf8 (s : string) : list N :=
  match s with
  | EmptyString => nil
  | String c s' =>
      let n := N_of_ascii c in
      if n <? 128 then n :: utf8 s'
      else N.lor 192 (N.shiftr n 6) :: N.lor 128 (N.land n 63) :: utf8 s'
  end.

End Text.

(* ===================================================================== *)
(** ** hashlib.sha256 (FIPS 180-4) on 32-bit words held in [N] *)
(* ===================================================================== *)

Module Sha256.

Definition w32 (x : N) : N := x mod 2 ^ 32.
Definition add32 (x y : N) : N := w32 (x + y).
Definition rotr (n x : N) : N := N.lor (N.shiftr x n) (w32 (N.shiftl x (32 - n))).
Definition not32 (x : N) : N := N.lxor x 0xffffffff.

Definition Ch (x y z : N) : N := N.lxor (N.land x y) (N.land (not32 x) z).
Definition Maj (x y z : N) : N :=
  N.lxor (N.lxor (N.land x y) (N.land x z)) (N.land y z).
Definition bsig0 (x : N) : N := N.lxor (N.lxor (rotr 2 x) (rotr 13 x)) (rotr 22 x).
Definition bsig1 (x : N) : N := N.lxor (N.lxor (rotr 6 x) (rotr 11 x)) (rotr 25 x).
Definition ssig0 (x : N) : N := N.lxor (N.lxor (rotr 7 x) (rotr 18 x)) (N.shiftr x 3).
Definition ssig1 (x : N) : N := N.lxor (N.lxor (rotr 17 x) (rotr 19 x)) (N.shiftr x 10).

(** The constants of FIPS 180-4 are fractional parts of roots of the first
    primes: the first 32 bits of the cube roots of the first 64 primes for
    [K], of the square roots of the first 8 primes for [H0]. *)
Definition is_prime (n : nat) : bool :=
  forallb (fun d => negb (Nat.eqb (Nat.modulo n d) 0)) (seq 2 (n - 2)).

Definition primes : list N :=
  map N.of_nat (List.filter is_prime (seq 2 310)).

(** The largest [r] below [2^k] with [r^3 <= n], one bit at a time. *)
Fixpoint cube_root (k : nat) (n r : N) : N :=
  match k with
  | O => r
  | S k' =>
      let r' := r + 2 ^ N.of_nat k' in
      cube_root k' n (if r' * r' * r' <=? n then r' else r)
  end.

Definition K : list N :=
  Eval vm_compute in map (fun p => w32 (cube_root 36 (p * 2 ^ 96) 0)) primes.

(** The eight working variables / the chaining value. *)
Record regs := Regs { ra : N; rb : N; rc : N; rd : N; re : N; rf : N; rg : N; rh : N }.

Definition H0 : regs :=
  Eval vm_compute in
  let h i := w32 (N.sqrt (nth i primes 0 * 2 ^ 64)) in
  Regs (h 0%nat) (h 1%nat) (h 2%nat) (h 3%nat) (h 4%nat) (h 5%nat) (h 6%nat) (h 7%nat).

(** Padding: a 1 bit, zeros up to 56 mod 64, the bit length on 8 bytes. *)
Definition be_bytes (k : nat) (x : N) : list N :=
  map (fun i => N.land (N.shiftr x (8 * N.of_nat i)) 255) (rev (seq 0 k)).

Definition pad (msg : list N) : list N :=
  let len := N.of_nat (length msg) in
  let zeros := N.to_nat ((64 - (len + 9) mod 64) mod 64) in
  (msg ++ 128 :: repeat 0 zeros ++ be_bytes 8 (8 * len))%list.

Fixpoint be_words (fuel : nat) (bs : list N) : list N :=
  match fuel, bs with
  | S fuel', b0 :: b1 :: b2 :: b3 :: rest =>
      (N.shiftl b0 24 + N.shiftl b1 16 + N.shiftl b2 8 + b3) :: be_words fuel' rest
  | _, _ => nil
  end.

(** The message schedule: [w] is the window W[t-16..t-1]. *)
Fixpoint schedule (n : nat) (w : list N) : list N :=
  match n with
  | O => nil
  | S n' =>
      let x := add32 (add32 (ssig1 (nth 14 w 0)) (nth 9 w 0))
                     (add32 (ssig0 (nth 1 w 0)) (nth 0 w 0)) in
      x :: schedule n' (tl w ++ [x])
  end.

Definition round (s : regs) (kw : N * N) : regs :=
  let t1 := add32 (add32 (add32 (rh s) (bsig1 (re s))) (Ch (re s) (rf s) (rg s)))
                  (add32 (fst kw) (snd kw)) in
  let t2 := add32 (bsig0 (ra s)) (Maj (ra s) (rb s) (rc s)) in
  Regs (add32 t1 t2) (ra s) (rb s) (rc s) (add32 (rd s) t1) (re s) (rf s) (rg s).

Definition compress (h : regs) (block : list N) : regs :=
  let w16 := be_words 16 block in
  let w := (w16 ++ schedule 48 w16)%list in
  let s := fold_left round (combine K w) h in
  Regs (add32 (ra h) (ra s)) (add32 (rb h) (rb s)) (add32 (rc h) (rc s))
       (add32 (rd h) (rd s)) (add32 (re h) (re s)) (add32 (rf h) (rf s))
       (add32 (rg h) (rg s)) (add32 (rh h) (rh s)).

Fixpoint blocks (fuel : nat) (h : regs) (bs : list N) : regs :=
  match fuel, bs with
  | S fuel', _ :: _ => blocks fuel' (compress h (firstn 64 bs)) (skipn 64 bs)
  | _, _ => h
  end.

Definition digest (msg : list N) : regs :=
  let p := pad msg in blocks (length p) H0 p.

Definition hex8 (x : N) : string :=
  String (Text.hexdigit (N.land (N.shiftr x 28) 15))
 (String (Text.hexdigit (N.land (N.shiftr x 24) 15))
 (String (Text.hexdigit (N.land (N.shiftr x 20) 15))
 (String (Text.hexdigit (N.land (N.shiftr x 16) 15))
 (String (Text.hexdigit (N.land (N.shiftr x 12) 15))
 (String (Text.hexdigit (N.land (N.shiftr x 8) 15))
 (String (Text.hexdigit (N.land (N.shiftr x 4) 15))
 (String (Text.hexdigit (N.land x 15)) EmptyString))))))).

Definition hexdigest (h : regs) : string :=
  hex8 (ra h) ++ hex8 (rb h) ++ hex8 (rc h) ++ hex8 (rd h) ++
  hex8 (re h) ++ hex8 (rf h) ++ hex8 (rg h) ++ hex8 (rh h).

End Sha256.

(** [sha256(text)] of the source: UTF-8 encode, hash, hex digest. *)
Definition sha256 (text : string) : string :=
  Sha256.hexdigest (Sha256.digest (Text.utf8 text)).

(* ===================================================================== *)
(** ** Python values: optional strings, dicts, JSON documents *)
(* ===================================================================== *)

(** Truthiness of an [Optional[str]]: [None] and [""] are falsy. *)
Definition truthy (v : option string) : bool :=
  match v with
  | Some (String _ _) => true
  | _ => false
  end.

(** [a or b] on optional strings. *)
Definition py_or (a b : option string) : option string :=
  if truthy a then a else b.

(** An insertion-ordered [dict] with string keys. *)
Definition dict (V : Type) : Type := list (string * V).

Fixpoint dict_lookup {V} (k : string) (d : dict V) : option V :=
  match d with
  | nil => None
  | (k', v) :: d' => if String.eqb k k' then Some v else dict_lookup k d'
  end.

(** [d[k] = v]: an existing key keeps its position, a new key goes last. *)
Fixpoint dict_set {V} (k : string) (v : V) (d : dict V) : dict V :=
  match d with
  | nil => (k, v) :: nil
  | (k', v') :: d' =>
      if String.eqb k k' then (k, v) :: d' else (k', v') :: dict_set k v d'
  end.

(** [d.setdefault(k, v)]: only a key that is not in [d] is set. *)
Definition dict_setdefault {V} (k : string) (v : V) (d : dict V) : dict V :=
  match dict_lookup k d with
  | Some _ => d
  | None => dict_set k v d
  end.

(** [{**d1, **d2}] *)
Definition dict_merge {V} (d1 d2 : dict V) : dict V :=
  fold_left (fun acc kv => dict_set (fst kv) (snd kv) acc) d2 d1.

Definition keys {V} (d : dict V) : list string := map fst d.

(** [d.get(k)] on a dict of optional strings: a missing key reads [None]. *)
Definition get (k : string) (d : dict (option string)) : option string :=
  match dict_lookup k d with
  | Some v => v
  | None => None
  end.

(** Order of [str] values: code point by code point. *)
Fixpoint str_leb (a b : string) : bool :=
  match a, b with
  | EmptyString, _ => true
  | String _ _, EmptyString => false
  | String x a', String y b' =>
      (N_of_ascii x <? N_of_ascii y)
      || ((N_of_ascii x =? N_of_ascii y) && str_leb a' b')
  end.

(** [sorted(d.items())] for a dict: an insertion sort on the keys. *)
Fixpoint insert_item {V} (kv : string * V) (l : dict V) : dict V :=
  match l with
  | nil => kv :: nil
  | kv' :: l' =>
      if str_leb (fst kv) (fst kv') then kv :: l else kv' :: insert_item kv l'
  end.

Fixpoint sorted_items {V} (d : dict V) : dict V :=
  match d with
  | nil => nil
  | kv :: d' => insert_item kv (sorted_items d')
  end.

(** What [json.loads] returns.  An [int] is kept as a number, a [float] as
    its [repr] and whether it is non-zero. *)
Inductive json : Type :=
| JNull
| JBool (b : bool)
| JInt (n : Z)
| JFloat (repr : string) (nonzero : bool)
| JStr (s : string)
| JList (items : list json)
| JObj (members : list (string * json)).

Module Json.

Definition dquote : ascii := "034"%char.

Definition hex4 (n : N) : string :=
  String (Text.hexdigit (N.land (N.shiftr n 12) 15))
 (String (Text.hexdigit (N.land (N.shiftr n 8) 15))
 (String (Text.hexdigit (N.land (N.shiftr n 4) 15))
 (String (Text.hexdigit (N.land n 15)) EmptyString))).

(** One character of a JSON string literal.  With [ensure_ascii] everything
    outside the printable ASCII range is written [\uXXXX]; without it only
    the control characters below 0x20 are. *)
Definition escape_char (ensure_ascii : bool) (c : ascii) : string :=
  let n := N_of_ascii c in
  if n =? 34 then String "\" (String dquote EmptyString)
  else if n =? 92 then "\\"
  else if n =? 10 then "\n"
  else if n =? 13 then "\r"
  else if n =? 9 then "\t"
  else if n =? 12 then "\f"
  else if n =? 8 then "\b"
  else if (n <? 32) || (ensure_ascii && (126 <? n)) then "\u" ++ hex4 n
  else String c EmptyString.

Fixpoint escape (ensure_ascii : bool) (s : string) : string :=
  match s with
  | EmptyString => EmptyString
  | String c s' => escape_char ensure_ascii c ++ escape ensure_ascii s'
  end.

Definition quote (ensure_ascii : bool) (s : string) : string :=
  String dquote (escape ensure_ascii s ++ String dquote EmptyString).

Definition member (ensure_ascii : bool) (kv : string * string) : string :=
  quote ensure_ascii (fst kv) ++ ": " ++ snd kv.

(** [json.dumps(v, sort_keys=.., ensure_ascii=..)] with the default
    separators.  The members of an object are rendered, then ordered. *)
Fixpoint dumps (sort_keys ensure_ascii : bool) (v : json) : string :=
  match v with
  | JNull => "null"
  | JBool true => "true"
  | JBool false => "false"
  | JInt n => DecimalString.NilZero.string_of_int (Z.to_int n)
  | JFloat repr _ => repr
  | JStr s => quote ensure_ascii s
  | JList items =>
      "[" ++ Text.join ", " (map (dumps sort_keys ensure_ascii) items) ++ "]"
  | JObj members =>
      let rendered :=
        map (fun kv : string * json =>
               let '(k, x) := kv in (k, dumps sort_keys ensure_ascii x)) members in
      let ordered := if sort_keys then sorted_items rendered else rendered in
      "{" ++ Text.join ", " (map (member ensure_ascii) ordered) ++ "}"
  end.

(** Truthiness of a JSON value in Python. *)
Definition truthy (v : json) : bool :=
  match v with
  | JNull => false
  | JBool b => b
  | JInt n => negb (Z.eqb n 0)
  | JFloat _ nz => nz
  | JStr s => negb (String.eqb s "")
  | JList l => match l with nil => false | _ => true end
  | JObj m => match m with nil => false | _ => true end
  end.

(** [a or b] *)
Definition or (a b : json) : json := if truthy a then a else b.

(** [obj.get(k)] on a dict: [None] (here [JNull]) for a missing key. *)
Definition get (k : string) (members : list (string * json)) : json :=
  match dict_lookup k members with
  | Some v => v
  | None => JNull
  end.

(** A dict of optional strings as a JSON object. *)
Definition of_item (d : dict (option string)) : json :=
  JObj (map (fun kv : string * option string =>
               (fst kv, match snd kv with Some s => JStr s | None => JNull end)) d).

End Json.

(** For the examples: a text written with an apostrophe for each double quote. *)
Fixpoint dq (s : string) : string :=
  match s with
  | EmptyString => EmptyString
  | String c s' => String (if Ascii.eqb c "'" then Json.dquote else c) (dq s')
  end.

(* ===================================================================== *)
(** ** Core pipeline: identity of a feed item *)
(* ===================================================================== *)

(** [compute_uid(item)] *)
Definition compute_uid (item : dict (option string)) : string :=
  match get "doi" item with
  | Some (String _ _ as doi) => "doi:" ++ Text.lower doi
  | _ =>
      match get "id_like" item with
      | Some (String _ _ as id_like) => "id:" ++ id_like
      | _ =>
          match get "link" item with
          | Some (String _ _ as link) => "linkhash:" ++ Text.take 16 (sha256 link)
          | _ =>
              let digest := sha256 (Json.dumps true true (Json.of_item item)) in
              "hash:" ++ Text.take 16 digest
          end
      end
  end.

(* ===================================================================== *)
(** ** The outside world and the effects of the program *)
(* ===================================================================== *)

(** Rows of the three tables of [SCHEMA], without their primary key. *)
Record feed_row := FeedRow {
  feed_etag : option string;
  feed_last_modified : option string;
  feed_last_checked_at : string }.

Record seen_row := SeenRow {
  seen_feed_url : string;
  seen_article_url : string;
  seen_doi : option string;
  seen_pub_date : option string;
  seen_first_seen_at : string }.

Record article_row := ArticleRow {
  art_feed_url : string;
  art_journal : option string;
  art_title_en : option string;
  art_title_cn : option string;
  art_type : option string;
  art_pub_date : option string;
  art_doi : option string;
  art_article_url : option string;
  art_abstract_en : option string;
  art_abstract_cn : option string;
  art_raw_jsonld : option string;
  art_fetched_at : string;
  art_last_updated_at : string }.

(** The SQLite file: [feeds] keyed by feed_url, [seen] and [articles] by uid. *)
Record database := Database {
  feeds : gmap string feed_row;
  seen : gmap string seen_row;
  articles : gmap string article_row }.

Definition empty_db : database := Database ∅ ∅ ∅.

(** An XML element as [xml.etree.ElementTree] holds it; a namespaced tag is
    written [{uri}local]. *)
Inductive element : Type :=
  Element (tag : string) (attrib : list (string * string))
          (text : option string) (children : list element).

Definition el_tag (e : element) : string := let 'Element t _ _ _ := e in t.
Definition el_attrib (e : element) : list (string * string) :=
  let 'Element _ a _ _ := e in a.
Definition el_text (e : element) : option string := let 'Element _ _ t _ := e in t.
Definition el_children (e : element) : list element := let 'Element _ _ _ c := e in c.

(** What the program reads of an article page through BeautifulSoup. *)
Record meta_tag := MetaTag {
  meta_name : option string;
  meta_property : option string;
  meta_content : option string }.

Record page_tag := PageTag {
  tag_name : string;
  tag_id : option string;
  tag_class : list string;
  tag_text : string (* get_text(" ") *) }.

Record page := Page {
  page_scripts : list (option json); (* application/ld+json blocks; None: json.loads raised *)
  page_meta : list meta_tag;         (* the meta elements, in document order *)
  page_tags : list page_tag          (* the other elements, in document order *) }.

(** Answer of the feed server to [fetch_feed]. *)
Inductive feed_response : Type :=
| FeedError                       (* transport error or raise_for_status *)
| NotModified                     (* 304 *)
| FeedBody (etag last_modified : option string) (body : option element)
    (* the ETag and Last-Modified headers and the content; [None]: not XML *).

(** The oracles: the [n]-th call to the outside gets the answer at [n]. *)
Record Env := {
  now_at : nat -> string;
  http_feed : nat -> string -> option string -> option string -> feed_response;
  http_article : nat -> string -> option page;        (* None: the GET raised *)
  chat_completion : nat -> string -> option string    (* None: the POST raised *) }.

Inductive exn : Type :=
| RequestException | ParseError | TypeError | AttributeError | IndexError
| KeyError | ValueError | SystemExit.

(** Calls to the outside, most recent first. *)
Inductive event : Type :=
| GetFeed (feed_url : string)
| GetArticle (uid : string) (link : option string)
| PostTranslation (text : string).

Record world := World { db : database; tick : nat; trace : list event }.

(** A pure computation that may raise. *)
Inductive result (A : Type) : Type :=
| Ok (a : A)
| Err (e : exn).
Arguments Ok {A} a.
Arguments Err {A} e.

(** A computation on the world: it returns, or an exception escapes it. *)
Inductive outcome (A : Type) : Type :=
| Done (a : A) (w : world)
| Raised (e : exn) (w : world).
Arguments Done {A} a w.
Arguments Raised {A} e w.

Definition M (A : Type) : Type := world -> outcome A.

#[global] Instance result_ret : MRet result := fun A a => Ok a.
#[global] Instance result_bind : MBind result := fun A B f m =>
  match m with
  | Ok a => f a
  | Err e => Err e
  end.

#[global] Instance M_ret : MRet M := fun A a w => Done a w.
#[global] Instance M_bind : MBind M := fun A B f m w =>
  match m w with
  | Done a w' => f a w'
  | Raised e w' => Raised e w'
  end.

Definition raise {A} (e : exn) : M A := fun w => Raised e w.

Definition lift {A} (r : result A) : M A :=
  match r with
  | Ok a => mret a
  | Err e => raise e
  end.

(** [try: m  except Exception: h] ([SystemExit] is not an [Exception]). *)
Definition try_except {A} (m : M A) (h : M A) : M A := fun w =>
  match m w with
  | Done a w' => Done a w'
  | Raised SystemExit w' => Raised SystemExit w'
  | Raised _ w' => h w'
  end.

Definition read_db : M database := fun w => Done (db w) w.

Definition write_db (f : database -> database) : M unit := fun w =>
  Done tt (World (f (db w)) (tick w) (trace w)).

Definition final_world {A} (o : outcome A) : world :=
  match o with
  | Done _ w => w
  | Raised _ w => w
  end.

Section Program.

(** [_charref.sub(_replace_charref, s)] of the standard [html] module: the
    replacement of the character references of a text that holds a ['&']. *)
Variable charref_sub : string -> string.

Variable env : Env.

(* ===================================================================== *)
(** ** Utilities *)
(* ===================================================================== *)

(** [now_ts()] *)
Definition now_ts : M string := fun w =>
  Done (now_at env (tick w)) (World (db w) (S (tick w)) (trace w)).

(** [html.unescape(s)] *)
Definition html_unescape (s : string) : string :=
  if Text.has_char "&" s then charref_sub s else s.

(** [clean_text(s)] *)
Definition clean_text (s : option string) : option string :=
  match s with
  | None => None
  | Some s => Some (Text.strip (Text.sub_ws false (html_unescape s)))
  end.

(* ===================================================================== *)
(** ** Feed parsing *)
(* ===================================================================== *)

Definition NS : dict string :=
  [ ("rdf", "http://www.w3.org/1999/02/22-rdf-syntax-ns#");
    ("rss", "http://purl.org/rss/1.0/");
    ("dc", "http://purl.org/dc/elements/1.1/");
    ("content", "http://purl.org/rss/1.0/modules/content/");
    ("prism", "http://prismstandard.org/namespaces/basic/2.0/");
    ("admin", "http://webns.net/mvcb/");
    ("atom", "http://www.w3.org/2005/Atom") ].

(** The tag that the path [prefix:name] stands for under [NS]. *)
Definition ns (prefix name : string) : string :=
  match dict_lookup prefix NS with
  | Some uri => "{" ++ uri ++ "}" ++ name
  | None => name
  end.

(** The header value of a validator: only a truthy one is sent. *)
Definition sent (validator : option string) : option string :=
  if truthy validator then validator else None.

(** [fetch_feed(url, etag, last_modified)]: a conditional header is sent for
    a truthy validator only; [FeedError] is the exception of [requests]. *)
Definition fetch_feed (url : string) (etag last_modified : option string)
  : M feed_response := fun w =>
  let w' := World (db w) (S (tick w)) (GetFeed url :: trace w) in
  match http_feed env (tick w) url (sent etag) (sent last_modified) with
  | FeedError => Raised RequestException w'
  | r => Done r w'
  end.

(** [e.find(tag)], [e.findall(tag)], [e.get(key)] on direct children. *)
Definition find (tag : string) (e : element) : option element :=
  List.find (fun c => String.eqb (el_tag c) tag) (el_children e).

Definition findall (tag : string) (e : element) : list element :=
  List.filter (fun c => String.eqb (el_tag c) tag) (el_children e).

Definition attr (key : string) (e : element) : option string :=
  dict_lookup key (el_attrib e).

(** [e.find('tag[@key="value"]')] *)
Definition find_attr (tag key value : string) (e : element) : option element :=
  List.find (fun c => String.eqb (el_tag c) tag &&
                      match attr key c with
                      | Some v => String.eqb v value
                      | None => false
                      end) (el_children e).

(** [a or b] on elements: an element without children is falsy. *)
Definition el_or (a b : option element) : option element :=
  match a with
  | Some (Element _ _ _ (_ :: _)) => a
  | _ => b
  end.

(** [xml_text(node)] *)
Definition xml_text (node : option element) : option string :=
  match node with
  | Some n =>
      match el_text n with
      | Some (String _ _ as t) => Some (Text.strip t)
      | _ => None
      end
  | None => None
  end.

(** The longest prefix of [s] in the class [p], and the rest. *)
Fixpoint span (p : ascii -> bool) (s : string) : string * string :=
  match s with
  | EmptyString => (EmptyString, EmptyString)
  | String c s' =>
      if p c then let '(a, b) := span p s' in (String c a, b)
      else (EmptyString, s)
  end.

(** A match of [10\.\d{4,9}/C+] at the start of [s], for a class [C] that
    holds no digit-run ambiguity: the digits are followed by ['/']. *)
Definition doi_at (tail : ascii -> bool) (s : string) : option string :=
  if String.prefix "10." s then
    let '(digits, rest) := span Text.isdigit (String.substring 3 (String.length s - 3) s) in
    if (4 <=? String.length digits)%nat && (String.length digits <=? 9)%nat then
      match rest with
      | String "/" r =>
          match fst (span tail r) with
          | EmptyString => None
          | body => Some ("10." ++ digits ++ "/" ++ body)
          end
      | _ => None
      end
    else None
  else None.

(** [re.search]: the leftmost match; with [boundary] the pattern starts
    with [\b], so the previous character must not be a word character. *)
Fixpoint search_doi (boundary : bool) (tail : ascii -> bool)
    (prev_word : bool) (s : string) : option string :=
  match (if boundary && prev_word then None else doi_at tail s) with
  | Some m => Some m
  | None =>
      match s with
      | EmptyString => None
      | String c s' => search_doi boundary tail (Text.isword c) s'
      end
  end.

Definition doi_char (c : ascii) : bool :=
  negb (Text.isspace c || Ascii.eqb c "<" || Ascii.eqb c ">"
        || Ascii.eqb c Json.dquote || Ascii.eqb c "'").

Definition doi_trailing (c : ascii) : bool :=
  Ascii.eqb c ")" || Ascii.eqb c "." || Ascii.eqb c "," || Ascii.eqb c ";".

(** [guess_doi] over its candidates, in order *)
Fixpoint guess_doi (candidates : list (option string)) : option string :=
  match candidates with
  | nil => None
  | Some (String _ _ as s) :: rest =>
      match search_doi true doi_char false s with
      | Some m => Some (Text.rstrip_by doi_trailing m)
      | None => guess_doi rest
      end
  | _ :: rest => guess_doi rest
  end.

(** [add_item(d)] of [parse_feed], without the append. *)
Definition add_item (d : dict (option string)) : dict (option string) :=
  let d := dict_set "title" (clean_text (get "title" d)) d in
  let d := dict_set "link" (get "link" d) d in
  let d := dict_set "id_like" (get "id_like" d) d in
  let d := dict_set "pub_date" (clean_text (get "pub_date" d)) d in
  let d := dict_set "doi" (clean_text (get "doi" d)) d in
  let d := dict_set "journal" (clean_text (get "journal" d)) d in
  d.

(** The body of the loop over the items of an RSS 1.0 / RDF document. *)
Definition rdf_item (item : element) : dict (option string) :=
  let title := py_or (xml_text (find (ns "rss" "title") item))
                     (xml_text (find (ns "dc" "title") item)) in
  let link := xml_text (find (ns "rss" "link") item) in
  let about := attr (ns "rdf" "about") item in
  let dc_date := xml_text (find (ns "dc" "date") item) in
  let prism_doi := xml_text (find (ns "prism" "doi") item) in
  let prism_publicationName := xml_text (find (ns "prism" "publicationName") item) in
  let dc_identifier := xml_text (find (ns "dc" "identifier") item) in
  add_item
    [ ("title", title);
      ("link", link);
      ("id_like", py_or (py_or about dc_identifier) link);
      ("pub_date", dc_date);
      ("doi", py_or prism_doi (guess_doi [dc_identifier; link]));
      ("journal", prism_publicationName) ].

(** The body of the loop over the items of an RSS 2.0 channel. *)
Definition rss2_item (item : element) : dict (option string) :=
  let title := py_or (xml_text (find "title" item))
                     (xml_text (find (ns "dc" "title") item)) in
  let link := xml_text (find "link" item) in
  let guid := xml_text (find "guid" item) in
  let pubDate := py_or (xml_text (find "pubDate" item))
                       (xml_text (find (ns "dc" "date") item)) in
  let description := xml_text (find "description" item) in
  add_item
    [ ("title", title);
      ("link", link);
      ("id_like", py_or guid link);
      ("pub_date", pubDate);
      ("doi", guess_doi [guid; description; link]);
      ("journal", None) ].

(** The body of the loop over the entries of an Atom feed. *)
Definition atom_entry (entry : element) : dict (option string) :=
  let title := py_or (xml_text (find (ns "atom" "title") entry))
                     (xml_text (find "title" entry)) in
  let link_el := el_or (find_attr (ns "atom" "link") "rel" "alternate" entry)
                       (find "link" entry) in
  let link := match link_el with
              | Some e => attr "href" e
              | None => None
              end in
  let entry_id := py_or (xml_text (find (ns "atom" "id") entry))
                        (xml_text (find "id" entry)) in
  let published := py_or (xml_text (find (ns "atom" "published") entry))
                         (xml_text (find "published" entry)) in
  let updated := py_or (xml_text (find (ns "atom" "updated") entry))
                       (xml_text (find "updated" entry)) in
  add_item
    [ ("title", title);
      ("link", link);
      ("id_like", py_or entry_id link);
      ("pub_date", py_or published updated);
      ("doi", guess_doi [entry_id; link]);
      ("journal", None) ].

(** [root.tag.split('}', 1)[-1] if '}' in root.tag else root.tag] *)
Fixpoint after_brace (s : string) : string :=
  match s with
  | EmptyString => EmptyString
  | String c s' => if Ascii.eqb c "}" then s' else after_brace s'
  end.

Definition local_name (tag : string) : string :=
  if Text.has_char "}" tag then after_brace tag else tag.

Definition is_some {A} (o : option A) : bool :=
  match o with Some _ => true | None => false end.

(** [parse_feed] on the parsed document. *)
Definition parse_root (root : element) : list (dict (option string)) :=
  let tag := local_name (el_tag root) in
  if String.eqb tag "RDF" || is_some (find (ns "rss" "channel") root) then
    map rdf_item (findall (ns "rss" "item") root)
  else if String.eqb tag "rss" || is_some (find "channel" root) then
    match find "channel" root with
    | Some channel => map rss2_item (findall "item" channel)
    | None => nil
    end
  else if String.eqb tag "feed" || is_some (find (ns "atom" "feed") root) then
    map atom_entry
        (match findall (ns "atom" "entry") root with
         | nil => findall "entry" root
         | entries => entries
         end)
  else nil.

(** [parse_feed(xml_bytes)]: [xml_root] raises on bytes that are not XML. *)
Definition parse_feed (xml_bytes : option element)
  : result (list (dict (option string))) :=
  match xml_bytes with
  | Some root => Ok (parse_root root)
  | None => Err ParseError
  end.

(* ===================================================================== *)
(** ** Article HTML extraction *)
(* ===================================================================== *)

(** [select_meta(soup, name)]: the first meta element of that name. *)
Definition select_meta (soup : page) (name : string) : option string :=
  match List.find (fun m => match meta_name m with
                            | Some n => String.eqb n name
                            | None => false
                            end) (page_meta soup) with
  | Some el =>
      match meta_content el with
      | Some (String _ _ as c) => Some (Text.strip c)
      | _ => None
      end
  | None => None
  end.

(** [parse_jsonld(soup)] *)
Definition parse_jsonld (soup : page) : list json :=
  flat_map (fun data => match data with
                        | Some (JList l) => l
                        | Some (JObj m) => [JObj m]
                        | _ => []
                        end) (page_scripts soup).

Definition is_article_type (t : json) : bool :=
  match t with
  | JStr s => String.eqb s "Article" || String.eqb s "ScholarlyArticle"
              || String.eqb s "NewsArticle"
  | _ => false
  end.

(** [pick_article_obj(jsonlds)]: [obj.get] raises on what is not a dict,
    [t[0]] on an empty list. *)
Fixpoint pick_article_obj (jsonlds : list json) : result (option (dict json)) :=
  match jsonlds with
  | nil => Ok None
  | JObj obj :: rest =>
      let t := Json.or (Json.get "@type" obj) (Json.get "type" obj) in
      t ← match t with
          | JList (x :: _) => Ok x
          | JList nil => Err IndexError
          | _ => Ok t
          end;
      if is_article_type t then Ok (Some obj) else pick_article_obj rest
  | _ :: _ => Err AttributeError
  end.

(** [re.search(r'10\.\d{4,9}/\S+', s)] and [m.group(0)] *)
Definition search_doi_plain (s : string) : option string :=
  search_doi false (fun c => negb (Text.isspace c)) false s.

(** [s and "10." in s], then the search: [in] raises on a number or a
    boolean, and [re.search] on a list or dict that holds ["10."]. *)
Definition doi_in (s : json) : result (option string) :=
  if negb (Json.truthy s) then Ok None
  else match s with
       | JStr s => Ok (if Text.contains "10." s then search_doi_plain s else None)
       | JList l =>
           if existsb (fun x => match x with
                                | JStr y => String.eqb y "10."
                                | _ => false
                                end) l
           then Err TypeError else Ok None
       | JObj m => if is_some (dict_lookup "10." m) then Err TypeError else Ok None
       | _ => Err TypeError
       end.

(** The loop over a list-valued [identifier]. *)
Fixpoint doi_of_list (ident : list json) : result (option string) :=
  match ident with
  | nil => Ok None
  | it :: rest =>
      s ← match it with
          | JStr _ => Ok it
          | JObj m => Ok (Json.or (Json.get "value" m) (Json.get "@id" m))
          | _ => Err AttributeError
          end;
      m ← doi_in s;
      match m with
      | Some doi => Ok (Some doi)
      | None => doi_of_list rest
      end
  end.

(** [clean_text] on a value of a JSON document: a truthy or falsy value
    that is neither [None] nor a [str] raises [TypeError]. *)
Definition clean_json (v : json) : result (option string) :=
  match v with
  | JNull => Ok None
  | JStr s => Ok (clean_text (Some s))
  | _ => Err TypeError
  end.

(** [extract_from_jsonld(obj)] *)
Definition extract_from_jsonld (obj : dict json) : result (dict (option string)) :=
  let title := Json.or (Json.get "headline" obj) (Json.get "name" obj) in
  let abstract := Json.or (Json.get "abstract" obj) (Json.get "description" obj) in
  let date_published :=
    Json.or (Json.get "datePublished" obj) (Json.get "dateCreated" obj) in
  let journal := JNull in
  let atype := Json.or (Json.get "articleSection" obj) (Json.get "type" obj) in
  let ident := Json.get "identifier" obj in
  let ident := match ident with
               | JObj m => Json.or (Json.get "value" m) (Json.get "@id" m)
               | _ => ident
               end in
  doi ← match ident with
        | JList l => doi_of_list l
        | JStr s => Ok (if Text.contains "10." s then search_doi_plain s else None)
        | _ => Ok None
        end;
  let journal := match Json.get "isPartOf" obj with
                 | JObj ispart => Json.or (Json.get "name" ispart) journal
                 | _ => journal
                 end in
  let journal := match Json.get "publisher" obj with
                 | JObj publisher => Json.or journal (Json.get "name" publisher)
                 | _ => journal
                 end in
  title ← clean_json title;
  abstract ← clean_json abstract;
  date_published ← clean_json date_published;
  journal ← clean_json journal;
  atype ← clean_json atype;
  Ok [ ("title", title);
       ("abstract", abstract);
       ("date_published", date_published);
       ("journal", journal);
       ("type", atype);
       ("doi", clean_text doi) ].

(** [extract_from_jsonld(obj) if obj else {}] *)
Definition fields_of (obj : option (dict json)) : result (dict (option string)) :=
  match obj with
  | Some ((_ :: _) as o) => extract_from_jsonld o
  | _ => Ok nil
  end.

Definition has_name (names : list string) (t : page_tag) : bool :=
  existsb (String.eqb (tag_name t)) names.

(** The two searches for an element that is named like an abstract. *)
Definition abstract_by_id (soup : page) : option page_tag :=
  List.find (fun t => has_name ["section"; "div"; "p"] t &&
                      match tag_id t with
                      | Some (String _ _ as i) => Text.contains "abstract" (Text.lower i)
                      | _ => false
                      end) (page_tags soup).

Definition abstract_by_class (soup : page) : option page_tag :=
  List.find (fun t => has_name ["section"; "div"] t &&
                      existsb (fun c => Text.contains "abstract" (Text.lower c))
                              (tag_class t)) (page_tags soup).

Definition og_description (soup : page) : option meta_tag :=
  List.find (fun m => match meta_property m with
                      | Some p => String.eqb p "og:description"
                      | None => false
                      end) (page_meta soup).

(** [extract_article_fields(html_text, url)] on the parsed page. *)
Definition extract_article_fields (soup : page) (url : string)
  : result (dict (option string)) :=
  let jsonlds := parse_jsonld soup in
  obj ← pick_article_obj jsonlds;
  base ← fields_of obj;
  let base := dict_setdefault "journal" (select_meta soup "citation_journal_title") base in
  let base := dict_setdefault "title" (select_meta soup "citation_title") base in
  let base := dict_setdefault "doi" (select_meta soup "citation_doi") base in
  let base := dict_setdefault "date_published"
                (select_meta soup "citation_publication_date") base in
  let base := dict_setdefault "type" (select_meta soup "citation_article_type") base in
  let base := dict_setdefault "abstract"
                (py_or (select_meta soup "dc.description")
                       (select_meta soup "description")) base in
  let base :=
    if truthy (get "abstract" base) then base
    else
      let abstract_el := match abstract_by_id soup with
                         | Some el => Some el
                         | None => abstract_by_class soup
                         end in
      match abstract_el with
      | None =>
          match og_description soup with
          | Some ogdesc =>
              match meta_content ogdesc with
              | Some (String _ _ as c) => dict_set "abstract" (clean_text (Some c)) base
              | _ => base
              end
          | None => base
          end
      | Some el => dict_set "abstract" (clean_text (Some (tag_text el))) base
      end in
  Ok (dict_set "article_url" (Some url) base).

(* ===================================================================== *)
(** ** Translation *)
(* ===================================================================== *)

(** What the pipeline reads of [config.json]. *)
Record config := Config {
  cfg_feeds : list string;
  cfg_translator : string;
  cfg_openai_api_key : option string }.

(** One text of the batch: the POST, or the text itself when it fails. *)
Definition translate_chunk (chunk : string) : M string :=
  match chunk with
  | EmptyString => mret ""
  | _ => fun w =>
      Done (match chat_completion env (tick w) chunk with
            | Some cn => cn
            | None => chunk
            end)
           (World (db w) (S (tick w)) (PostTranslation chunk :: trace w))
  end.

Fixpoint translate_chunks (texts : list string) : M (list string) :=
  match texts with
  | nil => mret nil
  | chunk :: rest =>
      cn ← translate_chunk chunk;
      outputs ← translate_chunks rest;
      mret (cn :: outputs)
  end.

(** [translate_openai_en2zh(texts, cfg)] *)
Definition translate_openai_en2zh (texts : list string) (cfg : config)
  : M (list string) :=
  if truthy (cfg_openai_api_key cfg) then translate_chunks texts else mret texts.

(* ===================================================================== *)
(** ** Core pipeline *)
(* ===================================================================== *)

Record NewArticle := mkNewArticle {
  na_uid : string;
  na_feed_url : string;
  na_article_url : string;
  na_doi : option string;
  na_pub_date : option string;
  na_meta : dict (option string);
  na_fetched_at : string }.

(** [check_new_items(conn, feed_url, feed_items)] *)
Fixpoint check_new_items (conn : database) (feed_url : string)
    (feed_items : list (dict (option string))) : list (dict (option string)) :=
  match feed_items with
  | nil => nil
  | it :: rest =>
      let uid := compute_uid it in
      match seen conn !! uid with
      | None => dict_set "_uid" (Some uid) it :: check_new_items conn feed_url rest
      | Some _ => check_new_items conn feed_url rest
      end
  end.

(** [INSERT OR IGNORE INTO seen ...] *)
Definition insert_or_ignore_seen (uid : string) (row : seen_row)
    (conn : database) : database :=
  match seen conn !! uid with
  | Some _ => conn
  | None => Database (feeds conn) (<[uid := row]> (seen conn)) (articles conn)
  end.

(** [mark_seen(conn, uid, feed_url, article_url, doi, pub_date)] *)
Definition mark_seen (uid feed_url article_url : string)
    (doi pub_date : option string) : M unit :=
  first_seen_at ← now_ts;
  write_db (insert_or_ignore_seen uid
              (SeenRow feed_url article_url doi pub_date first_seen_at)).

(** [ON CONFLICT(uid) DO UPDATE SET ...]: every column of the new row
    except feed_url and fetched_at, which are not in the SET list. *)
Definition on_conflict_update (old row : article_row) : article_row :=
  ArticleRow (art_feed_url old) (art_journal row) (art_title_en row)
    (art_title_cn row) (art_type row) (art_pub_date row) (art_doi row)
    (art_article_url row) (art_abstract_en row) (art_abstract_cn row)
    (art_raw_jsonld row) (art_fetched_at old) (art_last_updated_at row).

(** [INSERT INTO articles ... ON CONFLICT(uid) DO UPDATE SET ...] *)
Definition insert_or_update_article (uid : string) (row : article_row)
    (conn : database) : database :=
  let row' :=
    match articles conn !! uid with
    | None => row
    | Some old => on_conflict_update old row
    end in
  Database (feeds conn) (seen conn) (<[uid := row']> (articles conn)).

(** [upsert_article(conn, uid, feed_url, fields, raw_jsonld)] *)
Definition upsert_article (uid feed_url : string) (fields : dict (option string))
    (raw_jsonld : option (dict json)) : M unit :=
  let raw := match raw_jsonld with
             | Some ((_ :: _) as o) => Some (Json.dumps false false (JObj o))
             | _ => None
             end in
  fetched_at ← now_ts;
  last_updated_at ← now_ts;
  write_db (insert_or_update_article uid
              (ArticleRow feed_url (get "journal" fields) (get "title_en" fields)
                 (get "title_cn" fields) (get "type" fields) (get "pub_date" fields)
                 (get "doi" fields) (get "article_url" fields)
                 (get "abstract_en" fields) (get "abstract_cn" fields)
                 raw fetched_at last_updated_at)).

(** [v or ""] *)
Definition or_empty (v : option string) : string :=
  match v with
  | Some (String _ _ as s) => s
  | _ => ""
  end.

(** The page that a GET of [link] returns at call [n]; [requests] raises by
    itself on a link that is [None] or empty. *)
Definition article_response (n : nat) (link : option string) : option page :=
  match link with
  | Some (String _ _ as url) => http_article env n url
  | _ => None
  end.

(** [requests.get(link, ...)], [raise_for_status()], [soupify(r.text)]; the
    uid of the item being processed is noted with the call. *)
Definition get_article (uid : string) (link : option string) : M page := fun w =>
  let w' := World (db w) (S (tick w)) (GetArticle uid link :: trace w) in
  match article_response (tick w) link with
  | Some soup => Done soup w'
  | None => Raised RequestException w'
  end.

(** The body of the loop [for it in new_items]: [None] when the article
    could not be fetched (the [continue] of the handler). *)
Definition process_item (cfg : config) (feed_url : string)
    (it : dict (option string)) : M (option NewArticle) :=
  uid ← match dict_lookup "_uid" it with
        | Some (Some uid) => mret uid
        | _ => raise KeyError
        end;
  let link := get "link" it in
  let doi := get "doi" it in
  let pub_date := get "pub_date" it in
  fetched ← try_except
               (soup ← get_article uid link; mret (Some soup))
               (mark_seen uid feed_url (or_empty link) doi pub_date;; mret None);
  match fetched with
  | None => mret None
  | Some soup =>
      let jsonlds := parse_jsonld soup in
      jsonld_obj ← lift (pick_article_obj jsonlds);
      fields_from_jsonld ← lift (fields_of jsonld_obj);
      fallback_fields ← lift (extract_article_fields soup (or_empty link));
      let merged :=
        dict_merge fallback_fields
                   (List.filter (fun kv => truthy (snd kv)) fields_from_jsonld) in
      let journal := get "journal" merged in
      let title_en := py_or (get "title" merged) (get "title" it) in
      let atype := get "type" merged in
      let date_published := py_or (get "date_published" merged) (get "pub_date" it) in
      let doi_final := py_or (get "doi" merged) doi in
      let article_url := or_empty (py_or (get "article_url" merged) link) in
      let abstract_en := get "abstract" merged in
      cn ← (if String.eqb (cfg_translator cfg) "openai" then
              outs ← translate_openai_en2zh [or_empty title_en; or_empty abstract_en] cfg;
              match outs with
              | [title_cn; abstract_cn] => mret (Some title_cn, Some abstract_cn)
              | _ => raise ValueError
              end
            else mret (title_en, abstract_en));
      let record :=
        [ ("journal", journal);
          ("title_en", title_en);
          ("title_cn", fst cn);
          ("type", atype);
          ("pub_date", date_published);
          ("doi", doi_final);
          ("article_url", Some article_url);
          ("abstract_en", abstract_en);
          ("abstract_cn", snd cn) ] in
      upsert_article uid feed_url record jsonld_obj;;
      mark_seen uid feed_url article_url doi_final date_published;;
      fetched_at ← now_ts;
      mret (Some (mkNewArticle uid feed_url article_url doi_final date_published
                               record fetched_at))
  end.

(** The loop [for it in new_items], returning [todays_items]. *)
Fixpoint process_items (cfg : config) (feed_url : string)
    (new_items : list (dict (option string))) : M (list NewArticle) :=
  match new_items with
  | nil => mret nil
  | it :: rest =>
      na ← process_item cfg feed_url it;
      todays_items ← process_items cfg feed_url rest;
      mret (match na with
            | Some a => a :: todays_items
            | None => todays_items
            end)
  end.

(** [INSERT OR REPLACE INTO feeds ...] *)
Definition replace_feed (feed_url : string) (row : feed_row)
    (conn : database) : database :=
  Database (<[feed_url := row]> (feeds conn)) (seen conn) (articles conn).

(** The branch on the status of the response: the row of the feed is
    replaced, with the validators read from it on a 304 and with the ETag and
    Last-Modified headers of the response otherwise; then the body is parsed. *)
Definition feed_items (feed_url : string) (etag last_mod : option string)
    (response : feed_response) : M (list (dict (option string))) :=
  match response with
  | NotModified =>
      checked ← now_ts;
      write_db (replace_feed feed_url (FeedRow etag last_mod checked));;
      mret nil
  | FeedBody new_etag new_last_modified content =>
      checked ← now_ts;
      write_db (replace_feed feed_url (FeedRow new_etag new_last_modified checked));;
      lift (parse_feed content)
  | FeedError => raise RequestException (* not returned by fetch_feed *)
  end.

(** The cached validators of a feed: [feed_row[0] if feed_row else None]. *)
Definition cached_etag (conn : database) (feed_url : string) : option string :=
  match feeds conn !! feed_url with
  | Some r => feed_etag r
  | None => None
  end.

Definition cached_last_modified (conn : database) (feed_url : string)
  : option string :=
  match feeds conn !! feed_url with
  | Some r => feed_last_modified r
  | None => None
  end.

(** The body of the loop [for feed_url in feeds].  [None] is the [continue]
    after a failed fetch; otherwise the feed and its [todays_items], from
    which the Markdown report of the feed is written (the report reads the
    database and writes a file only, and is not part of the embedding). *)
Definition process_feed (cfg : config) (feed_url : string)
  : M (option (string * list NewArticle)) :=
  conn ← read_db;
  let etag := cached_etag conn feed_url in
  let last_mod := cached_last_modified conn feed_url in
  fetched ← try_except
               (r ← fetch_feed feed_url etag last_mod; mret (Some r))
               (mret None);
  match fetched with
  | None => mret None
  | Some response =>
      items ← feed_items feed_url etag last_mod response;
      conn ← read_db;
      let new_items := check_new_items conn feed_url items in
      todays_items ← process_items cfg feed_url new_items;
      mret (Some (feed_url, todays_items))
  end.

Fixpoint process_feeds (cfg : config) (feeds : list string)
  : M (list (string * list NewArticle)) :=
  match feeds with
  | nil => mret nil
  | feed_url :: rest =>
      r ← process_feed cfg feed_url;
      written ← process_feeds cfg rest;
      mret (match r with
            | Some report => report :: written
            | None => written
            end)
  end.

(** [run_pipeline(config)], started on the world that holds the database
    file: no feed in the configuration is [sys.exit(2)]. *)
Definition run_pipeline (cfg : config) : M (list (string * list NewArticle)) :=
  match cfg_feeds cfg with
  | nil => raise SystemExit
  | feeds => process_feeds cfg feeds
  end.

End Program.

(* ===================================================================== *)
(** ** Data for the examples *)
(* ===================================================================== *)

Module Demo.

(** The character-reference substitution on texts without a reference,
    where it has nothing to replace; no text of the examples holds ['&']. *)
Definition no_charref : string -> string := fun s => s.

Definition leaf (tag text : string) : element := Element tag nil (Some text) nil.

Definition rss2 (items : list element) : element :=
  Element "rss" [("version", "2.0")] None [Element "channel" nil None items].

(** An item that carries a link and nothing else that identifies it. *)
Definition link_only_item : element :=
  Element "item" nil None
    [leaf "title" "A  title"; leaf "link" "http://example.org/a  b"].

(** Two items of one body with the same guid. *)
Definition twin_items : list element :=
  [ Element "item" nil None
      [leaf "guid" "urn:article:1"; leaf "link" "http://example.org/1"];
    Element "item" nil None
      [leaf "guid" "urn:article:1"; leaf "link" "http://example.org/1?again"] ].

(** An item with a title and a link, and no guid. *)
Definition plain_item : element :=
  Element "item" nil None
    [leaf "title" "Feed title"; leaf "link" "http://example.org/article"].


(** A page whose JSON-LD article object has an abstract but no headline,
    and whose meta tags give a title. *)
Definition untitled_jsonld_page : page :=
  Page [Some (JObj [("@type", JStr "Article"); ("abstract", JStr "An abstract.")])]
       [MetaTag (Some "citation_title") None (Some "Meta title")]
       nil.

(** A page with a title in both layers. *)
Definition titled_page : page :=
  Page [Some (JObj [("@type", JStr "Article"); ("headline", JStr "Structured title")])]
       [MetaTag (Some "citation_title") None (Some "Meta title")]
       nil.

Definition clock (n : nat) : string :=
  "2024-01-01T00:00:" ++ NilZero.string_of_uint (Nat.to_uint n).

(** A server that answers every feed request with [response] and every
    article request with [article]. *)
Definition server (response : feed_response) (article : option page) : Env :=
  {| now_at := clock;
     http_feed := fun _ _ _ _ => response;
     http_article := fun _ _ => article;
     chat_completion := fun _ _ => None |}.

Definition feed_url : string := "http://example.org/feed.rss".

Definition cfg : config := Config [feed_url] "none" None.

Definition start : world := World empty_db 0 nil.

(** A database in which the uid of the twin items already has a row. *)
Definition seen_before : world :=
  World (Database ∅
           (<["id:urn:article:1" :=
                SeenRow feed_url "http://example.org/1" None None
                        "2023-12-31T00:00:00"]> ∅)
           ∅) 0 nil.

(** A database that holds the validators of an earlier fetch of the feed. *)
Definition fetched_before : world :=
  World (Database (<[feed_url := FeedRow (Some "v1") None "2023-12-31T00:00:00"]> ∅)
           ∅ ∅) 0 nil.

End Demo.

(* ===================================================================== *)
(** ** Vocabulary of the statements *)
(* ===================================================================== *)

(** [m] keeps the property [I] of the world, whether it returns or raises. *)
Definition preserves {A} (I : world -> Prop) (m : M A) : Prop :=
  forall w, I w -> I (final_world (m w)).



(* ===================================================================== *)
(** ** The remaining utilities and queries of the file *)
(* ===================================================================== *)

(** Every character of [s] is in the class [p]. *)
Fixpoint all_chars (p : ascii -> bool) (s : string) : bool :=
  match s with
  | EmptyString => true
  | String c s' => p c && all_chars p s'
  end.

Definition first_char (s : string) : option ascii :=
  match s with
  | EmptyString => None
  | String c _ => Some c
  end.

Fixpoint last_char (s : string) : option ascii :=
  match s with
  | EmptyString => None
  | String c EmptyString => Some c
  | String _ s' => last_char s'
  end.

(** [pick_first] over its values, each an optional string. *)
Fixpoint pick_first (vals : list (option string)) : option string :=
  match vals with
  | nil => None
  | v :: rest => if truthy v then v else pick_first rest
  end.

(** The class of the pattern of [sanitize_filename]: backslash, slash,
    colon, star, question mark, double quote, angle brackets, bar. *)
Definition unsafe_char (c : ascii) : bool :=
  Ascii.eqb c "\" || Ascii.eqb c "/" || Ascii.eqb c ":" || Ascii.eqb c "*"
  || Ascii.eqb c "?" || Ascii.eqb c Json.dquote || Ascii.eqb c "<"
  || Ascii.eqb c ">" || Ascii.eqb c "|".

(** [re.sub(class, "_", s)] for a class of single characters. *)
Fixpoint sub_chars (p : ascii -> bool) (s : string) : string :=
  match s with
  | EmptyString => EmptyString
  | String c s' => String (if p c then "_"%char else c) (sub_chars p s')
  end.

(** [re.sub(r"\s+", "_", s)] *)
Fixpoint sub_ws_underscore (in_run : bool) (s : string) : string :=
  match s with
  | EmptyString => EmptyString
  | String c s' =>
      if Text.isspace c
      then (if in_run then sub_ws_underscore true s'
            else String "_" (sub_ws_underscore true s'))
      else String c (sub_ws_underscore false s')
  end.

Definition dot_or_underscore (c : ascii) : bool :=
  Ascii.eqb c "." || Ascii.eqb c "_".

(** [sanitize_filename(s, default)] *)
Definition sanitize_filename (s default : string) : string :=
  match s with
  | EmptyString => default
  | _ =>
      let s := sub_chars unsafe_char s in
      let s := sub_ws_underscore false s in
      let s := Text.rstrip_by dot_or_underscore (Text.lstrip_by dot_or_underscore s) in
      match s with
      | EmptyString => default
      | _ => s
      end
  end.

(** [SELECT MAX(first_seen_at) FROM seen WHERE feed_url=?]: the greatest
    text in the order of its bytes, [None] without a row of the feed. *)
Definition max_first_seen_at (feed_url : string) (rows : gmap string seen_row)
  : option string :=
  map_fold (fun (_ : string) (row : seen_row) (acc : option string) =>
              if String.eqb (seen_feed_url row) feed_url then
                match acc with
                | None => Some (seen_first_seen_at row)
                | Some best =>
                    Some (if str_leb best (seen_first_seen_at row)
                          then seen_first_seen_at row else best)
                end
              else acc)
           None rows.

(** [get_last_new_ts_for_feed(conn, feed_url)] *)
Definition get_last_new_ts_for_feed (conn : database) (feed_url : string)
  : option string :=
  match max_first_seen_at feed_url (seen conn) with
  | Some (String _ _ as ts) => Some ts
  | _ => None
  end.

(** The loop of [majority_journal]: [counter[j] = counter.get(j, 0) + 1]
    for the truthy journal of each item. *)
Fixpoint count_journals (items : list NewArticle) (counter : dict nat) : dict nat :=
  match items with
  | nil => counter
  | na :: rest =>
      match get "journal" (na_meta na) with
      | Some (String _ _ as j) =>
          let n := match dict_lookup j counter with
                   | Some n => n
                   | None => O
                   end in
          count_journals rest (dict_set j (n + 1)%nat counter)
      | _ => count_journals rest counter
      end
  end.

(** [sorted(counter.items(), key=lambda kv: kv[1], reverse=True)]: a stable
    sort, so entries of equal count keep their order. *)
Fixpoint insert_by_count (kv : string * nat) (l : dict nat) : dict nat :=
  match l with
  | nil => kv :: nil
  | kv' :: l' =>
      if (snd kv' <=? snd kv)%nat then kv :: l else kv' :: insert_by_count kv l'
  end.

Fixpoint sorted_by_count (d : dict nat) : dict nat :=
  match d with
  | nil => nil
  | kv :: d' => insert_by_count kv (sorted_by_count d')
  end.

(** [majority_journal(items)] *)
Definition majority_journal (items : list NewArticle) : option string :=
  match sorted_by_count (count_journals items nil) with
  | nil => None
  | (j, _) :: _ => Some j
  end.

(** The number of items whose journal is [j]. *)
Definition journal_count (j : string) (items : list NewArticle) : nat :=
  length (List.filter (fun na => match get "journal" (na_meta na) with
                                 | Some j' => String.eqb j' j
                                 | None => false
                                 end) items).

(** The POST requests of a trace. *)
Definition translation_requests (tr : list event) : list event :=
  List.filter (fun e => match e with
                        | PostTranslation _ => true
                        | _ => false
                        end) tr.

(** A text in which every white space character is a space that does not
    follow another one ([after_space]: the previous character was one). *)
Fixpoint single_spaced (after_space : bool) (s : string) : bool :=
  match s with
  | EmptyString => true
  | String c s' =>
      if Text.isspace c
      then Ascii.eqb c " " && negb after_space && single_spaced true s'
      else single_spaced false s'
  end.

(** Neither the first nor the last character of [s] is in the class [p]. *)
Definition trimmed (p : ascii -> bool) (s : string) : Prop :=
  (forall c, first_char s = Some c -> p c = false) /\
  (forall c, last_char s = Some c -> p c = false).

(** The digits of a lowercase hexadecimal number. *)
Definition lower_hex (c : ascii) : bool :=
  let n := N_of_ascii c in
  ((48 <=? n) && (n <=? 57)) || ((97 <=? n) && (n <=? 102)).

(** A character allowed in a sanitized file name. *)
Definition filename_char (c : ascii) : bool :=
  negb (unsafe_char c) && negb (Text.isspace c).


(** The heuristic search of [extract_article_fields] for an abstract: an
    element found by its id, else one found by its class, else the
    og:description meta tag; [None] when none of them gives a text. *)
Definition heuristic_abstract (charref_sub : string -> string) (soup : page)
  : option (option string) :=
  match abstract_by_id soup with
  | Some el => Some (clean_text charref_sub (Some (tag_text el)))
  | None =>
      match abstract_by_class soup with
      | Some el => Some (clean_text charref_sub (Some (tag_text el)))
      | None =>
          match og_description soup with
          | Some ogdesc =>
              match meta_content ogdesc with
              | Some (String _ _ as c) => Some (clean_text charref_sub (Some c))
              | _ => None
              end
          | None => None
          end
      end
  end.

Module Demo2.

Definition atom_link : element :=
  Element (ns "atom" "link") [("rel", "alternate"); ("href", "http://example.org/1")]
          None nil.

(** An Atom entry whose only child is its alternate link. *)
Definition atom_entry_with_link : element :=
  Element (ns "atom" "entry") nil None [atom_link].

End Demo2.

(** Every row of the articles table has a row of the same uid in the seen
    table. *)
Definition articles_are_seen (conn : database) : Prop :=
  forall uid, is_Some (articles conn !! uid) -> is_Some (seen conn !! uid).

(* ===================================================================== *)
(** * Properties *)
(* ===================================================================== *)

(** ** Test vectors *)

Example sha256_abc :
  sha256 "abc" = "ba7816bf8f01cfea414140de5dae2223b00361a396177a9cb410ff61f20015ad".
Proof. vm_compute. reflexivity. Qed.

Example sha256_empty :
  sha256 "" = "e3b0c44298fc1c149afbf4c8996fb92427ae41e4649b934ca495991b7852b855".
Proof. vm_compute. reflexivity. Qed.

Example dumps_sorted :
  Json.dumps true true
    (Json.of_item [("title", Some "A & B"); ("doi", None); ("link", Some "")])
  = dq "{'doi': null, 'link': '', 'title': 'A & B'}".
Proof. vm_compute. reflexivity. Qed.

(* ===================================================================== *)
(** ** Texts and digests *)
(* ===================================================================== *)

Lemma N_of_ascii_inj (x y : ascii) : N_of_ascii x = N_of_ascii y -> x = y.
Proof.
  intros H. rewrite <- (ascii_N_embedding x), <- (ascii_N_embedding y).
  now rewrite H.
Qed.

Lemma take_length (n : nat) (s : string) :
  (n <= String.length s)%nat -> String.length (Text.take n s) = n.
Proof.
  revert s. induction n as [|n IH]; intros [|c s] Hn; simpl in *; try lia.
  rewrite IH; lia.
Qed.

Lemma hexdigest_length (h : Sha256.regs) :
  String.length (Sha256.hexdigest h) = 64%nat.
Proof. reflexivity. Qed.

Lemma sha256_length (text : string) : String.length (sha256 text) = 64%nat.
Proof. apply hexdigest_length. Qed.

Lemma digest16_length (text : string) :
  String.length (Text.take 16 (sha256 text)) = 16%nat.
Proof. apply take_length. rewrite sha256_length. lia. Qed.

Lemma digest16_nonempty (text : string) : Text.take 16 (sha256 text) <> "".
Proof.
  intros H. pose proof (digest16_length text) as L. rewrite H in L. discriminate.
Qed.

Lemma lower_length (s : string) : String.length (Text.lower s) = String.length s.
Proof. induction s as [|c s IH]; simpl; congruence. Qed.

Lemma lower_nonempty (c : ascii) (s : string) : Text.lower (String c s) <> "".
Proof. discriminate. Qed.

(* ===================================================================== *)
(** ** The order of keys and [sorted] *)
(* ===================================================================== *)

Section KeyOrder.

Lemma str_leb_total (a b : string) : str_leb a b = true \/ str_leb b a = true.
Proof.
  revert b. induction a as [|x a IH]; intros [|y b]; simpl; auto.
  destruct (N.ltb_spec (N_of_ascii x) (N_of_ascii y)); simpl; auto.
  destruct (N.ltb_spec (N_of_ascii y) (N_of_ascii x)); simpl; auto.
  assert (E : N_of_ascii x = N_of_ascii y) by lia.
  rewrite E, N.eqb_refl. simpl. apply IH.
Qed.

Lemma str_leb_antisym (a b : string) :
  str_leb a b = true -> str_leb b a = true -> a = b.
Proof.
  revert b. induction a as [|x a IH]; intros [|y b]; simpl; try easy.
  intros H1 H2.
  apply orb_true_iff in H1. apply orb_true_iff in H2.
  rewrite !andb_true_iff, !N.ltb_lt, !N.eqb_eq in *.
  destruct H1 as [H1|[E1 L1]], H2 as [H2|[E2 L2]]; try lia.
  f_equal; [now apply N_of_ascii_inj | now apply IH].
Qed.

Lemma str_leb_trans (a b c : string) :
  str_leb a b = true -> str_leb b c = true -> str_leb a c = true.
Proof.
  revert b c. induction a as [|x a IH]; intros [|y b] [|z c]; simpl; try easy.
  intros H1 H2.
  apply orb_true_iff in H1. apply orb_true_iff in H2. apply orb_true_iff.
  rewrite !andb_true_iff, !N.ltb_lt, !N.eqb_eq in *.
  destruct H1 as [H1|[E1 L1]], H2 as [H2|[E2 L2]];
    try (left; lia).
  right. split; [lia | eauto].
Qed.

Context {V : Type}.
Implicit Types (x y : string * V) (l : dict V).

Lemma insert_item_comm x y l :
  fst x <> fst y ->
  insert_item x (insert_item y l) = insert_item y (insert_item x l).
Proof.
  intros Hne. induction l as [|z l IH]; simpl.
  - destruct (str_leb (fst x) (fst y)) eqn:Exy, (str_leb (fst y) (fst x)) eqn:Eyx;
      try reflexivity.
    + exfalso. apply Hne. now apply str_leb_antisym.
    + destruct (str_leb_total (fst x) (fst y)); congruence.
  - destruct (str_leb (fst y) (fst z)) eqn:Eyz, (str_leb (fst x) (fst z)) eqn:Exz;
      simpl; rewrite ?Eyz, ?Exz.
    + destruct (str_leb (fst x) (fst y)) eqn:Exy, (str_leb (fst y) (fst x)) eqn:Eyx;
        try reflexivity.
      * exfalso. apply Hne. now apply str_leb_antisym.
      * destruct (str_leb_total (fst x) (fst y)); congruence.
    + destruct (str_leb (fst x) (fst y)) eqn:Exy; [|reflexivity].
      rewrite (str_leb_trans _ _ _ Exy Eyz) in Exz. discriminate.
    + destruct (str_leb (fst y) (fst x)) eqn:Eyx; [|reflexivity].
      rewrite (str_leb_trans _ _ _ Eyx Exz) in Eyz. discriminate.
    + now rewrite IH.
Qed.

Lemma keys_perm l l' : Permutation l l' -> Permutation (keys l) (keys l').
Proof. apply Permutation_map. Qed.

Lemma sorted_items_perm l l' :
  NoDup (keys l) -> Permutation l l' -> sorted_items l = sorted_items l'.
Proof.
  intros Hnd Hp. induction Hp as [|x l l' Hp IH|x y l|l l' l'' Hp1 IH1 Hp2 IH2];
    simpl.
  - reflexivity.
  - apply NoDup_cons in Hnd as [_ Hnd]. now rewrite IH.
  - apply insert_item_comm.
    apply NoDup_cons in Hnd as [Hin _]. intros E. apply Hin.
    apply elem_of_cons. now left.
  - rewrite IH1 by assumption. apply IH2.
    now rewrite <- (keys_perm _ _ Hp1).
Qed.

Lemma dict_lookup_in k (v : V) l :
  NoDup (keys l) -> (k, v) ∈ l -> dict_lookup k l = Some v.
Proof.
  induction l as [|[k' v'] l IH]; simpl.
  - intros _ H. now apply elem_of_nil in H.
  - intros Hnd Hin.
    apply NoDup_cons in Hnd as [Hnin Hnd].
    apply elem_of_cons in Hin as [E|Hin].
    + inversion E; subst. now rewrite String.eqb_refl.
    + destruct (String.eqb_spec k k') as [->|_].
      * exfalso. apply Hnin. apply (list_elem_of_fmap_2 fst) in Hin. exact Hin.
      * now apply IH.
Qed.

Lemma dict_lookup_some_in k (v : V) l : dict_lookup k l = Some v -> (k, v) ∈ l.
Proof.
  induction l as [|[k' v'] l IH]; simpl; [easy|].
  destruct (String.eqb_spec k k') as [->|_].
  - intros [= ->]. apply elem_of_cons. now left.
  - intros H. apply elem_of_cons. right. now apply IH.
Qed.

Lemma dict_lookup_perm k l l' :
  NoDup (keys l) -> Permutation l l' -> dict_lookup k l = dict_lookup k l'.
Proof.
  intros Hnd Hp.
  assert (Hnd' : NoDup (keys l')) by now rewrite <- (keys_perm _ _ Hp).
  destruct (dict_lookup k l) as [v|] eqn:E.
  - symmetry. apply dict_lookup_in; [assumption|].
    rewrite <- Hp. now apply dict_lookup_some_in.
  - destruct (dict_lookup k l') as [v'|] eqn:E'; [|reflexivity].
    apply dict_lookup_some_in in E'. rewrite <- Hp in E'.
    apply (dict_lookup_in _ _ _ Hnd) in E'. congruence.
Qed.

End KeyOrder.

(* ===================================================================== *)
(** ** Dict updates *)
(* ===================================================================== *)

Lemma dict_lookup_set_eq {V} (k : string) (v : V) (d : dict V) :
  dict_lookup k (dict_set k v d) = Some v.
Proof.
  induction d as [|[k' v'] d IH]; simpl.
  - now rewrite String.eqb_refl.
  - destruct (String.eqb_spec k k') as [->|Hne]; simpl.
    + now rewrite String.eqb_refl.
    + destruct (String.eqb_spec k k'); [contradiction|exact IH].
Qed.

Lemma dict_lookup_set_ne {V} (k k' : string) (v : V) (d : dict V) :
  k <> k' -> dict_lookup k' (dict_set k v d) = dict_lookup k' d.
Proof.
  intros Hne. induction d as [|[k0 v0] d IH]; simpl.
  - destruct (String.eqb_spec k' k); [congruence|reflexivity].
  - destruct (String.eqb_spec k k0) as [->|Hk]; simpl.
    + destruct (String.eqb_spec k' k0); [congruence|reflexivity].
    + destruct (String.eqb_spec k' k0); [reflexivity|exact IH].
Qed.

Lemma get_set_eq (k : string) (v : option string) (d : dict (option string)) :
  get k (dict_set k v d) = v.
Proof. unfold get. now rewrite dict_lookup_set_eq. Qed.

Lemma get_set_ne (k k' : string) (v : option string) (d : dict (option string)) :
  k <> k' -> get k' (dict_set k v d) = get k' d.
Proof. intros H. unfold get. now rewrite dict_lookup_set_ne. Qed.

(* ===================================================================== *)
(** ** compute_uid *)
(* ===================================================================== *)

Lemma truthy_false (v : option string) :
  truthy v = false <-> v = None \/ v = Some "".
Proof.
  destruct v as [[|c s]|]; simpl; split; intros H; auto; try discriminate.
  destruct H as [H|H]; discriminate.
Qed.

Lemma truthy_true (v : option string) :
  truthy v = true <-> exists c s, v = Some (String c s).
Proof.
  destruct v as [[|c s]|]; simpl; split; intros H; try discriminate; eauto;
    destruct H as (c' & s' & H); discriminate.
Qed.

Lemma get_perm (k : string) (d d' : dict (option string)) :
  NoDup (keys d) -> Permutation d d' -> get k d = get k d'.
Proof. intros Hnd Hp. unfold get. now rewrite (dict_lookup_perm k d d' Hnd Hp). Qed.

Lemma dumps_object (sort_keys ensure_ascii : bool) (members : list (string * json)) :
  Json.dumps sort_keys ensure_ascii (JObj members) =
  let rendered :=
    map (fun kv : string * json =>
           (fst kv, Json.dumps sort_keys ensure_ascii (snd kv))) members in
  let ordered := if sort_keys then sorted_items rendered else rendered in
  "{" ++ Text.join ", " (map (Json.member ensure_ascii) ordered) ++ "}".
Proof.
  simpl. do 4 f_equal. destruct sort_keys; [f_equal|];
    apply map_ext; now intros [k x].
Qed.

(** With [sort_keys] the serialisation of an item does not depend on the
    order in which its fields were inserted. *)
Lemma dumps_item_perm (d d' : dict (option string)) :
  NoDup (keys d) -> Permutation d d' ->
  Json.dumps true true (Json.of_item d) = Json.dumps true true (Json.of_item d').
Proof.
  intros Hnd Hp. unfold Json.of_item. rewrite !dumps_object. simpl.
  do 4 f_equal. apply sorted_items_perm.
  - unfold keys in *. rewrite !map_map. simpl. exact Hnd.
  - now do 2 apply Permutation_map.
Qed.

Lemma compute_uid_doi (item : dict (option string)) (doi : string) :
  get "doi" item = Some doi -> doi <> "" ->
  compute_uid item = "doi:" ++ Text.lower doi.
Proof.
  intros E Hne. unfold compute_uid. rewrite E.
  destruct doi; [contradiction|reflexivity].
Qed.

Lemma compute_uid_id (item : dict (option string)) (id_like : string) :
  truthy (get "doi" item) = false ->
  get "id_like" item = Some id_like -> id_like <> "" ->
  compute_uid item = "id:" ++ id_like.
Proof.
  intros Hd E Hne. unfold compute_uid.
  destruct (get "doi" item) as [[|? ?]|]; try discriminate;
    rewrite E; destruct id_like; try contradiction; reflexivity.
Qed.

Lemma compute_uid_linkhash (item : dict (option string)) (link : string) :
  truthy (get "doi" item) = false -> truthy (get "id_like" item) = false ->
  get "link" item = Some link -> link <> "" ->
  compute_uid item = "linkhash:" ++ Text.take 16 (sha256 link).
Proof.
  intros Hd Hi E Hne. unfold compute_uid.
  destruct (get "doi" item) as [[|? ?]|]; try discriminate;
    destruct (get "id_like" item) as [[|? ?]|]; try discriminate;
    rewrite E; destruct link; try contradiction; reflexivity.
Qed.

Lemma compute_uid_hash (item : dict (option string)) :
  truthy (get "doi" item) = false -> truthy (get "id_like" item) = false ->
  truthy (get "link" item) = false ->
  compute_uid item =
  "hash:" ++ Text.take 16 (sha256 (Json.dumps true true (Json.of_item item))).
Proof.
  intros Hd Hi Hl. unfold compute_uid.
  destruct (get "doi" item) as [[|? ?]|]; try discriminate;
    destruct (get "id_like" item) as [[|? ?]|]; try discriminate;
    destruct (get "link" item) as [[|? ?]|]; try discriminate; reflexivity.
Qed.

Lemma compute_uid_perm (item item' : dict (option string)) :
  NoDup (keys item) -> Permutation item item' ->
  compute_uid item' = compute_uid item.
Proof.
  intros Hnd Hp. unfold compute_uid.
  rewrite <- !(get_perm _ item item' Hnd Hp).
  now rewrite (dumps_item_perm item item' Hnd Hp).
Qed.

(** C2. [compute_uid] follows the strict priority doi, id_like, link, full
    field set: a non-empty doi gives ["doi:"] and the lowercased doi;
    otherwise a non-empty id_like gives ["id:"] and the id_like; otherwise a
    non-empty link gives ["linkhash:"] and the first 16 hex digits of the
    SHA-256 of the link; otherwise the uid is ["hash:"] and the first 16 hex
    digits of the SHA-256 of the item serialised with sorted keys.  Two items
    with the same fields, inserted in any order, have the same uid. *)
Theorem compute_uid_priority (item : dict (option string)) :
  (forall doi, get "doi" item = Some doi -> doi <> "" ->
     compute_uid item = "doi:" ++ Text.lower doi) /\
  (truthy (get "doi" item) = false ->
   forall id_like, get "id_like" item = Some id_like -> id_like <> "" ->
     compute_uid item = "id:" ++ id_like) /\
  (truthy (get "doi" item) = false -> truthy (get "id_like" item) = false ->
   forall link, get "link" item = Some link -> link <> "" ->
     compute_uid item = "linkhash:" ++ Text.take 16 (sha256 link)) /\
  (truthy (get "doi" item) = false -> truthy (get "id_like" item) = false ->
   truthy (get "link" item) = false ->
     compute_uid item =
     "hash:" ++ Text.take 16 (sha256 (Json.dumps true true (Json.of_item item)))) /\
  (forall item', NoDup (keys item) -> Permutation item item' ->
     compute_uid item' = compute_uid item).
Proof.
  repeat split.
  - apply compute_uid_doi.
  - intros. now apply compute_uid_id.
  - intros. now apply compute_uid_linkhash.
  - apply compute_uid_hash.
  - apply compute_uid_perm.
Qed.

Lemma compute_uid_priority_witness :
  compute_uid [("link", Some "http://example.org/a"); ("doi", Some "10.1000/XYZ")]
  = compute_uid [("doi", Some "10.1000/XYZ"); ("link", Some "http://example.org/a")]
  /\ compute_uid [("doi", Some "10.1000/XYZ"); ("link", Some "http://example.org/a")]
     = "doi:10.1000/xyz".
Proof.
  split.
  - apply (compute_uid_priority
             [("doi", Some "10.1000/XYZ"); ("link", Some "http://example.org/a")]).
    + apply NoDup_cons_2; [|apply NoDup_singleton].
      intros H. apply list_elem_of_singleton in H. discriminate.
    + apply perm_swap.
  - apply (proj1 (compute_uid_priority
                    [("doi", Some "10.1000/XYZ"); ("link", Some "http://example.org/a")])
                 "10.1000/XYZ").
    + reflexivity.
    + discriminate.
Defined.

Example compute_uid_levels :
  compute_uid [("doi", Some ""); ("id_like", Some "urn:x"); ("link", Some "http://example.org/a")]
    = "id:urn:x" /\
  compute_uid [("doi", None); ("id_like", Some ""); ("link", Some "http://example.org/a")]
    = "linkhash:6a2d6a47a2828fe0" /\
  compute_uid [("title", Some "T"); ("link", None); ("id_like", None);
               ("pub_date", None); ("doi", None); ("journal", None)]
    = "hash:83d88a5663699930".
Proof. vm_compute. auto. Qed.

(** C10. At every level of [compute_uid] an empty string counts like a
    missing field: an item whose doi is [""] skips the ["doi:"] strategy and
    falls through to id_like, then link, then the hash of all fields, each
    of them skipped in turn when missing or empty; and the payload after
    the prefix of a uid is never empty. *)
Theorem compute_uid_empty_is_absent (item : dict (option string)) :
  (get "doi" item = Some "" ->
     (forall c s, get "id_like" item = Some (String c s) ->
        compute_uid item = "id:" ++ String c s) /\
     (get "id_like" item = None \/ get "id_like" item = Some "" ->
        (forall c s, get "link" item = Some (String c s) ->
           compute_uid item = "linkhash:" ++ Text.take 16 (sha256 (String c s))) /\
        (get "link" item = None \/ get "link" item = Some "" ->
           compute_uid item =
           "hash:" ++
           Text.take 16 (sha256 (Json.dumps true true (Json.of_item item)))))) /\
  (exists prefix payload,
     compute_uid item = prefix ++ payload /\ payload <> "" /\
     (prefix = "doi:" \/ prefix = "id:" \/ prefix = "linkhash:" \/ prefix = "hash:")).
Proof.
  split.
  - intros Hd. unfold compute_uid. rewrite Hd. split.
    + intros c s ->. reflexivity.
    + intros Hi. split.
      * intros c s Hl. destruct Hi as [-> | ->]; rewrite Hl; reflexivity.
      * intros Hl. destruct Hi as [-> | ->], Hl as [-> | ->]; reflexivity.
  - unfold compute_uid.
    destruct (get "doi" item) as [[|c s]|].
    2: { exists "doi:", (Text.lower (String c s)). split; [reflexivity|].
         split; [apply lower_nonempty | auto]. }
    all: destruct (get "id_like" item) as [[|c s]|].
    all: try (exists "id:", (String c s); split; [reflexivity|];
              split; [discriminate | auto]).
    all: destruct (get "link" item) as [[|c s]|].
    all: try (exists "linkhash:", (Text.take 16 (sha256 (String c s)));
              split; [reflexivity|]; split; [apply digest16_nonempty | auto]).
    all: eexists "hash:", _; split; [reflexivity|];
         split; [apply digest16_nonempty | auto 6].
Qed.

Lemma compute_uid_empty_is_absent_witness :
  compute_uid [("doi", Some ""); ("id_like", Some ""); ("link", Some "http://example.org/a")]
  = "linkhash:" ++ Text.take 16 (sha256 "http://example.org/a").
Proof.
  exact (proj1 (proj2 (proj1 (compute_uid_empty_is_absent
                                [("doi", Some ""); ("id_like", Some "");
                                 ("link", Some "http://example.org/a")])
                             eq_refl)
                      (or_intror eq_refl))
               _ _ eq_refl).
Defined.

(* ===================================================================== *)
(** ** The seen store and the article store *)
(* ===================================================================== *)

Section Stores.

Variable env : Env.

Lemma mark_seen_run (uid feed_url article_url : string)
    (doi pub_date : option string) (w : world) :
  mark_seen env uid feed_url article_url doi pub_date w =
  Done tt (World (insert_or_ignore_seen uid
                    (SeenRow feed_url article_url doi pub_date (now_at env (tick w)))
                    (db w))
                 (S (tick w)) (trace w)).
Proof. reflexivity. Qed.

Lemma upsert_article_run (uid feed_url : string) (fields : dict (option string))
    (raw_jsonld : option (dict json)) (w : world) :
  exists row,
    upsert_article env uid feed_url fields raw_jsonld w =
    Done tt (World (insert_or_update_article uid row (db w)) (S (S (tick w))) (trace w))
    /\ art_feed_url row = feed_url
    /\ art_journal row = get "journal" fields
    /\ art_title_en row = get "title_en" fields
    /\ art_title_cn row = get "title_cn" fields
    /\ art_type row = get "type" fields
    /\ art_pub_date row = get "pub_date" fields
    /\ art_doi row = get "doi" fields
    /\ art_article_url row = get "article_url" fields
    /\ art_abstract_en row = get "abstract_en" fields
    /\ art_abstract_cn row = get "abstract_cn" fields
    /\ art_raw_jsonld row =
         match raw_jsonld with
         | Some ((_ :: _) as o) => Some (Json.dumps false false (JObj o))
         | _ => None
         end
    /\ art_fetched_at row = now_at env (tick w)
    /\ art_last_updated_at row = now_at env (S (tick w)).
Proof. eexists. split; [reflexivity|]. simpl. repeat split. Qed.

Lemma insert_or_ignore_seen_present (uid : string) (row r : seen_row)
    (conn : database) :
  seen conn !! uid = Some r -> insert_or_ignore_seen uid row conn = conn.
Proof. intros H. unfold insert_or_ignore_seen. now rewrite H. Qed.

Lemma insert_or_ignore_seen_lookup (uid : string) (row : seen_row)
    (conn : database) :
  seen (insert_or_ignore_seen uid row conn) !! uid =
  Some (match seen conn !! uid with
        | Some r => r
        | None => row
        end).
Proof.
  unfold insert_or_ignore_seen. destruct (seen conn !! uid) eqn:E; simpl.
  - exact E.
  - apply lookup_insert_eq.
Qed.

Lemma insert_or_ignore_seen_other (uid uid' : string) (row : seen_row)
    (conn : database) :
  uid <> uid' ->
  seen (insert_or_ignore_seen uid row conn) !! uid' = seen conn !! uid'.
Proof.
  intros Hne. unfold insert_or_ignore_seen.
  destruct (seen conn !! uid); simpl; [reflexivity|].
  now apply lookup_insert_ne.
Qed.

(** A row of the seen table is never changed by an insertion, whatever
    its key. *)
Lemma insert_or_ignore_seen_keeps (uid uid' : string) (row r : seen_row)
    (conn : database) :
  seen conn !! uid' = Some r ->
  seen (insert_or_ignore_seen uid row conn) !! uid' = Some r.
Proof.
  intros H. destruct (decide (uid = uid')) as [->|Hne].
  - now rewrite (insert_or_ignore_seen_present _ _ _ _ H).
  - now rewrite insert_or_ignore_seen_other.
Qed.

Lemma insert_or_update_article_lookup (uid : string) (row : article_row)
    (conn : database) :
  articles (insert_or_update_article uid row conn) !! uid =
  Some (match articles conn !! uid with
        | None => row
        | Some old => on_conflict_update old row
        end).
Proof. unfold insert_or_update_article. simpl. apply lookup_insert_eq. Qed.

Lemma insert_or_update_article_other (uid uid' : string) (row : article_row)
    (conn : database) :
  uid <> uid' ->
  articles (insert_or_update_article uid row conn) !! uid' = articles conn !! uid'.
Proof.
  intros Hne. unfold insert_or_update_article. simpl. now apply lookup_insert_ne.
Qed.

(** C7. [mark_seen] is idempotent: when the uid already has a row, the call
    returns without an error and leaves the whole database as it was, so the
    row keeps all its fields, first_seen_at included; hence after a first
    call a second one with the same uid, whatever its other arguments,
    changes nothing. *)
Theorem mark_seen_idempotent (uid feed_url article_url : string)
    (doi pub_date : option string) (w : world) :
  (forall r, seen (db w) !! uid = Some r ->
     exists w', mark_seen env uid feed_url article_url doi pub_date w = Done tt w'
                /\ db w' = db w) /\
  (forall feed_url' article_url' doi' pub_date',
     exists w1 w2,
       mark_seen env uid feed_url article_url doi pub_date w = Done tt w1 /\
       mark_seen env uid feed_url' article_url' doi' pub_date' w1 = Done tt w2 /\
       db w2 = db w1).
Proof.
  split.
  - intros r Hr. eexists. split; [apply mark_seen_run|]. simpl.
    now apply insert_or_ignore_seen_present with r.
  - intros f' a' d' p'. do 2 eexists.
    split; [apply mark_seen_run|]. split; [apply mark_seen_run|]. simpl.
    eapply insert_or_ignore_seen_present. apply insert_or_ignore_seen_lookup.
Qed.

(** C8. Two calls of [upsert_article] for one uid: the row then holds the
    second call's values in every extracted column (journal, title_en,
    title_cn, type, pub_date, doi, article_url, abstract_en, abstract_cn,
    raw_jsonld), last_updated_at is the time read by the second call, and
    fetched_at is still the value the row had after the first call (the time
    of the first call when that call inserted the row). *)
Theorem upsert_article_twice (uid : string)
    (feed_url1 feed_url2 : string) (fields1 fields2 : dict (option string))
    (raw1 raw2 : option (dict json)) (w : world) :
  exists w1 w2 row1 row2,
    upsert_article env uid feed_url1 fields1 raw1 w = Done tt w1 /\
    upsert_article env uid feed_url2 fields2 raw2 w1 = Done tt w2 /\
    articles (db w1) !! uid = Some row1 /\
    articles (db w2) !! uid = Some row2 /\
    art_journal row2 = get "journal" fields2 /\
    art_title_en row2 = get "title_en" fields2 /\
    art_title_cn row2 = get "title_cn" fields2 /\
    art_type row2 = get "type" fields2 /\
    art_pub_date row2 = get "pub_date" fields2 /\
    art_doi row2 = get "doi" fields2 /\
    art_article_url row2 = get "article_url" fields2 /\
    art_abstract_en row2 = get "abstract_en" fields2 /\
    art_abstract_cn row2 = get "abstract_cn" fields2 /\
    art_raw_jsonld row2 =
      match raw2 with
      | Some ((_ :: _) as o) => Some (Json.dumps false false (JObj o))
      | _ => None
      end /\
    art_last_updated_at row2 = now_at env (S (tick w1)) /\
    art_fetched_at row2 = art_fetched_at row1 /\
    (articles (db w) !! uid = None -> art_fetched_at row1 = now_at env (tick w)).
Proof.
  destruct (upsert_article_run uid feed_url1 fields1 raw1 w)
    as (r1 & E1 & _ & _ & _ & _ & _ & _ & _ & _ & _ & _ & _ & F1 & _).
  set (w1 := World (insert_or_update_article uid r1 (db w)) (S (S (tick w))) (trace w))
    in *.
  destruct (upsert_article_run uid feed_url2 fields2 raw2 w1)
    as (r2 & E2 & _ & J & T & C & Y & P & D & A & AE & AC & R & _ & U).
  pose proof (insert_or_update_article_lookup uid r1 (db w)) as L1.
  pose proof (insert_or_update_article_lookup uid r2 (db w1)) as L2.
  change (db w1) with (insert_or_update_article uid r1 (db w)) in L2 at 2.
  rewrite L1 in L2.
  eexists w1, _, _, _.
  split; [exact E1|]. split; [exact E2|].
  split; [exact L1|]. split; [exact L2|].
  simpl. repeat (split; [assumption|]).
  split; [reflexivity|].
  intros Hnone. rewrite Hnone. exact F1.
Qed.

Example upsert_article_twice_run :
  let w1 := final_world
              (upsert_article (Demo.server NotModified None) "id:urn:article:1"
                 Demo.feed_url [("title_en", Some "First"); ("doi", Some "10.1000/a")]
                 None Demo.start) in
  let w2 := final_world
              (upsert_article (Demo.server NotModified None) "id:urn:article:1"
                 "http://example.org/other.rss" [("title_en", Some "Second")]
                 None w1) in
  articles (db w2) !! "id:urn:article:1" =
  Some (ArticleRow Demo.feed_url None (Some "Second") None None None None None
          None None None "2024-01-01T00:00:0" "2024-01-01T00:00:3").
Proof. vm_compute. reflexivity. Qed.

End Stores.

(* ===================================================================== *)
(** ** check_new_items *)
(* ===================================================================== *)

(** The new items are the items whose uid has no row in the seen table, in
    their order, each with its uid under the key ["_uid"]. *)
Lemma check_new_items_filter (conn : database) (feed_url : string)
    (feed_items : list (dict (option string))) :
  check_new_items conn feed_url feed_items =
  map (fun it => dict_set "_uid" (Some (compute_uid it)) it)
      (List.filter (fun it => negb (is_some (seen conn !! compute_uid it))) feed_items).
Proof.
  induction feed_items as [|it rest IH]; simpl; [reflexivity|].
  destruct (seen conn !! compute_uid it); simpl; now rewrite IH.
Qed.



(* ===================================================================== *)
(** ** Properties kept by the effects of the pipeline *)
(* ===================================================================== *)

Section Keeps.

Variable I : world -> Prop.

Lemma bind_keeps {A B} (m : M A) (f : A -> M B) (w : world) :
  I (final_world (m w)) ->
  (forall a w', m w = Done a w' -> I w' -> I (final_world (f a w'))) ->
  I (final_world ((m ≫= f) w)).
Proof.
  intros Hm Hf. unfold mbind, M_bind. destruct (m w) as [a w'|e w'] eqn:E; simpl in *.
  - now apply Hf.
  - exact Hm.
Qed.

Lemma preserves_ret {A} (a : A) : preserves I (mret a).
Proof. intros w Hw. exact Hw. Qed.

Lemma preserves_raise {A} (e : exn) : preserves I (raise e : M A).
Proof. intros w Hw. exact Hw. Qed.

Lemma preserves_lift {A} (r : result A) : preserves I (lift r).
Proof. destruct r; intros w Hw; exact Hw. Qed.

Lemma preserves_read_db : preserves I read_db.
Proof. intros w Hw. exact Hw. Qed.

Lemma preserves_bind {A B} (m : M A) (f : A -> M B) :
  preserves I m -> (forall a, preserves I (f a)) -> preserves I (m ≫= f).
Proof.
  intros Hm Hf w Hw. apply bind_keeps; [now apply Hm|].
  intros a w' _ Hw'. now apply Hf.
Qed.

Lemma preserves_ret_bind {A B} (a : A) (f : A -> M B) :
  preserves I (f a) -> preserves I (mret a ≫= f).
Proof. intros H w Hw. exact (H w Hw). Qed.

Lemma preserves_raise_bind {A B} (e : exn) (f : A -> M B) :
  preserves I (raise e ≫= f).
Proof. intros w Hw. exact Hw. Qed.

Lemma preserves_try_except {A} (m h : M A) :
  preserves I m -> preserves I h -> preserves I (try_except m h).
Proof.
  intros Hm Hh w Hw. unfold try_except. specialize (Hm w Hw).
  destruct (m w) as [a w'|e w']; simpl in *; [exact Hm|].
  destruct e; try exact Hm; now apply Hh.
Qed.

Lemma preserves_write_db (f : database -> database) :
  (forall d t tr, I (World d t tr) -> I (World (f d) t tr)) ->
  preserves I (write_db f).
Proof. intros H [d t tr] Hw. simpl. now apply H. Qed.

End Keeps.

Section Frame.

Variable charref_sub : string -> string.
Variable env : Env.

(** A property [I] of the world and the uids [ok] whose processing keeps it. *)
Variable I : world -> Prop.
Variable ok : string -> Prop.

Hypothesis I_clock : forall d t t' tr, I (World d t tr) -> I (World d t' tr).
Hypothesis I_translation :
  forall d t tr x, I (World d t tr) -> I (World d t (PostTranslation x :: tr)).
Hypothesis I_article :
  forall d t tr u l, ok u -> I (World d t tr) -> I (World d t (GetArticle u l :: tr)).
Hypothesis I_seen :
  forall d t tr u row,
    ok u -> I (World d t tr) -> I (World (insert_or_ignore_seen u row d) t tr).
Hypothesis I_upsert :
  forall d t tr u row,
    ok u -> I (World d t tr) -> I (World (insert_or_update_article u row d) t tr).

Lemma preserves_now_ts : preserves I (now_ts env).
Proof. intros [d t tr] Hw. simpl. now apply I_clock with t. Qed.

Lemma preserves_mark_seen (uid feed_url article_url : string)
    (doi pub_date : option string) :
  ok uid -> preserves I (mark_seen env uid feed_url article_url doi pub_date).
Proof.
  intros Hok. unfold mark_seen. apply preserves_bind; [apply preserves_now_ts|].
  intros ts. apply preserves_write_db. intros d t tr. now apply I_seen.
Qed.

Lemma preserves_upsert_article (uid feed_url : string)
    (fields : dict (option string)) (raw_jsonld : option (dict json)) :
  ok uid -> preserves I (upsert_article env uid feed_url fields raw_jsonld).
Proof.
  intros Hok. unfold upsert_article.
  apply preserves_bind; [apply preserves_now_ts|]. intros fetched_at.
  apply preserves_bind; [apply preserves_now_ts|]. intros last_updated_at.
  apply preserves_write_db. intros d t tr. now apply I_upsert.
Qed.

Lemma preserves_get_article (uid : string) (link : option string) :
  ok uid -> preserves I (get_article env uid link).
Proof.
  intros Hok [d t tr] Hw. unfold get_article. simpl.
  assert (I (World d (S t) (GetArticle uid link :: tr))).
  { apply I_article; [assumption|]. now apply I_clock with t. }
  now destruct (article_response env t link).
Qed.

Lemma preserves_translate_chunk (chunk : string) :
  preserves I (translate_chunk env chunk).
Proof.
  intros [d t tr] Hw. destruct chunk; simpl; [exact Hw|].
  apply I_translation. now apply I_clock with t.
Qed.

Lemma preserves_translate_chunks (texts : list string) :
  preserves I (translate_chunks env texts).
Proof.
  induction texts as [|chunk rest IH]; simpl; [apply preserves_ret|].
  apply preserves_bind; [apply preserves_translate_chunk|]. intros cn.
  apply preserves_bind; [exact IH|]. intros outputs. apply preserves_ret.
Qed.

Lemma preserves_translate (texts : list string) (cfg : config) :
  preserves I (translate_openai_en2zh env texts cfg).
Proof.
  unfold translate_openai_en2zh. destruct (truthy (cfg_openai_api_key cfg)).
  - apply preserves_translate_chunks.
  - apply preserves_ret.
Qed.

(** One item keeps [I] when its uid is one of the [ok] uids. *)
Lemma preserves_process_item (cfg : config) (feed_url : string)
    (it : dict (option string)) :
  (forall u, dict_lookup "_uid" it = Some (Some u) -> ok u) ->
  preserves I (process_item charref_sub env cfg feed_url it).
Proof.
  intros Hok. unfold process_item.
  destruct (dict_lookup "_uid" it) as [[uid|]|];
    try apply preserves_raise_bind.
  specialize (Hok uid eq_refl). apply preserves_ret_bind.
  apply preserves_bind.
  { apply preserves_try_except.
    - apply preserves_bind; [now apply preserves_get_article|].
      intros soup. apply preserves_ret.
    - apply preserves_bind; [now apply preserves_mark_seen|].
      intros _. apply preserves_ret. }
  intros [soup|]; [|apply preserves_ret].
  apply preserves_bind; [apply preserves_lift|]. intros jsonld_obj.
  apply preserves_bind; [apply preserves_lift|]. intros fields_from_jsonld.
  apply preserves_bind; [apply preserves_lift|]. intros fallback_fields.
  apply preserves_bind.
  { destruct (String.eqb (cfg_translator cfg) "openai"); [|apply preserves_ret].
    apply preserves_bind; [apply preserves_translate|].
    intros [|? [|? [|? ?]]]; first [apply preserves_raise | apply preserves_ret]. }
  intros cn.
  apply preserves_bind; [now apply preserves_upsert_article|]. intros _.
  apply preserves_bind; [now apply preserves_mark_seen|]. intros _.
  apply preserves_bind; [apply preserves_now_ts|]. intros fetched_at.
  apply preserves_ret.
Qed.

Lemma preserves_process_items (cfg : config) (feed_url : string)
    (items : list (dict (option string))) :
  (forall it u, it ∈ items -> dict_lookup "_uid" it = Some (Some u) -> ok u) ->
  preserves I (process_items charref_sub env cfg feed_url items).
Proof.
  induction items as [|it rest IH]; intros Hok; simpl; [apply preserves_ret|].
  apply preserves_bind.
  { apply preserves_process_item. intros u. apply Hok. apply elem_of_cons. now left. }
  intros na. apply preserves_bind.
  { apply IH. intros it' u Hin. apply Hok. apply elem_of_cons. now right. }
  intros todays_items. apply preserves_ret.
Qed.

Hypothesis I_feed :
  forall d t tr u, I (World d t tr) -> I (World d t (GetFeed u :: tr)).
Hypothesis I_feed_row :
  forall d t tr u row, I (World d t tr) -> I (World (replace_feed u row d) t tr).
Hypothesis I_unseen : forall w u, I w -> seen (db w) !! u = None -> ok u.

Lemma preserves_fetch_feed (url : string) (etag last_modified : option string) :
  preserves I (fetch_feed env url etag last_modified).
Proof.
  intros [d t tr] Hw. unfold fetch_feed. simpl.
  assert (I (World d (S t) (GetFeed url :: tr))).
  { apply I_feed. now apply I_clock with t. }
  now destruct (http_feed env t url _ _).
Qed.

Lemma preserves_feed_items (feed_url : string) (etag last_mod : option string)
    (response : feed_response) :
  preserves I (feed_items charref_sub env feed_url etag last_mod response).
Proof.
  destruct response; simpl; [apply preserves_raise| |].
  - apply preserves_bind; [apply preserves_now_ts|]. intros checked.
    apply preserves_bind; [|intros; apply preserves_ret].
    apply preserves_write_db. intros d t tr. apply I_feed_row.
  - apply preserves_bind; [apply preserves_now_ts|]. intros checked.
    apply preserves_bind; [|intros; apply preserves_lift].
    apply preserves_write_db. intros d t tr. apply I_feed_row.
Qed.




End Frame.

(* ===================================================================== *)
(** ** The run *)
(* ===================================================================== *)

Section Run.

Variable charref_sub : string -> string.
Variable env : Env.




Lemma process_item_fetch_failed (cfg : config) (feed_url : string)
    (it : dict (option string)) (uid : string) (w : world) :
  dict_lookup "_uid" it = Some (Some uid) ->
  article_response env (tick w) (get "link" it) = None ->
  process_item charref_sub env cfg feed_url it w =
  Done None
    (World (insert_or_ignore_seen uid
              (SeenRow feed_url (or_empty (get "link" it)) (get "doi" it)
                       (get "pub_date" it) (now_at env (S (tick w))))
              (db w))
           (S (S (tick w))) (GetArticle uid (get "link" it) :: trace w)).
Proof.
  intros Hu Hf. unfold process_item. rewrite Hu.
  unfold mbind, M_bind, mret, M_ret, try_except, get_article, mark_seen, now_ts,
    write_db.
  simpl. rewrite Hf. reflexivity.
Qed.

Lemma bind_ret_id {A} (m : M A) (w : world) : (m ≫= mret) w = m w.
Proof. unfold mbind, M_bind. now destruct (m w). Qed.

(** C9. When the request for the article page of a new item fails, the
    item yields no entry, the loop goes on with the remaining items, the
    uid of the item has a row in the seen table (a new one when it had
    none) and the articles table is as it was; no row of the articles table
    appears for this uid while the remaining items are processed, as long
    as none of them has the same uid. *)
Theorem article_fetch_failure (cfg : config) (feed_url : string)
    (it : dict (option string)) (rest : list (dict (option string)))
    (uid : string) (w : world) :
  dict_lookup "_uid" it = Some (Some uid) ->
  article_response env (tick w) (get "link" it) = None ->
  exists w1,
    process_item charref_sub env cfg feed_url it w = Done None w1 /\
    process_items charref_sub env cfg feed_url (it :: rest) w =
      process_items charref_sub env cfg feed_url rest w1 /\
    articles (db w1) = articles (db w) /\
    seen (db w1) !! uid =
      Some (match seen (db w) !! uid with
            | Some r => r
            | None => SeenRow feed_url (or_empty (get "link" it)) (get "doi" it)
                              (get "pub_date" it) (now_at env (S (tick w)))
            end) /\
    ((forall it', it' ∈ rest -> dict_lookup "_uid" it' <> Some (Some uid)) ->
     articles (db (final_world
                     (process_items charref_sub env cfg feed_url rest w1))) !! uid
     = articles (db w) !! uid).
Proof.
  intros Hu Hf. eexists.
  split; [exact (process_item_fetch_failed cfg feed_url it uid w Hu Hf)|].
  split; [|split; [|split]].
  - simpl. unfold mbind at 1, M_bind at 1.
    rewrite (process_item_fetch_failed cfg feed_url it uid w Hu Hf).
    apply bind_ret_id.
  - simpl. unfold insert_or_ignore_seen. now destruct (seen (db w) !! uid).
  - simpl. apply insert_or_ignore_seen_lookup.
  - intros Hrest.
    apply (preserves_process_items charref_sub env
             (fun w' => articles (db w') !! uid = articles (db w) !! uid)
             (fun u => u <> uid)); cbn beta; cbn [db]; try tauto.
    + intros d t tr u row _ H. rewrite <- H.
      unfold insert_or_ignore_seen. now destruct (seen d !! u).
    + intros d t tr u row Hne H. rewrite <- H.
      now apply insert_or_update_article_other.
    + intros it' u Hin Hlook E. subst u. now apply (Hrest it').
    + unfold insert_or_ignore_seen. now destruct (seen (db w) !! uid).
Qed.

Lemma process_feed_run (cfg : config) (feed_url : string) (w : world) :
  let etag := cached_etag (db w) feed_url in
  let last_mod := cached_last_modified (db w) feed_url in
  let w1 := World (db w) (S (tick w)) (GetFeed feed_url :: trace w) in
  process_feed charref_sub env cfg feed_url w =
  match http_feed env (tick w) feed_url (sent etag) (sent last_mod) with
  | FeedError => Done None w1
  | response =>
      (items ← feed_items charref_sub env feed_url etag last_mod response;
       conn ← read_db;
       todays_items ← process_items charref_sub env cfg feed_url
                        (check_new_items conn feed_url items);
       mret (Some (feed_url, todays_items))) w1
  end.
Proof.
  intros etag last_mod w1. unfold process_feed, try_except, fetch_feed.
  unfold mbind at 1, M_bind at 1. unfold read_db at 1.
  unfold mbind at 1, M_bind at 1.
  unfold mbind at 1, M_bind at 1.
  fold etag. fold last_mod. fold w1.
  destruct (http_feed env (tick w) feed_url (sent etag) (sent last_mod)); reflexivity.
Qed.

(** The row of a feed is not touched by the processing of items. *)
Lemma process_items_keeps_feed_row (cfg : config) (feed_url url : string)
    (row : option feed_row) (items : list (dict (option string))) :
  preserves (fun w => feeds (db w) !! url = row)
            (process_items charref_sub env cfg feed_url items).
Proof.
  apply (preserves_process_items charref_sub env _ (fun _ => True));
    cbn beta; cbn [db]; try tauto.
  intros d t tr u r _ H. rewrite <- H.
  unfold insert_or_ignore_seen. now destruct (seen d !! u).
Qed.

(** C4 (amended). The row of a feed is replaced on every fetch that returns
    a response: on a not-modified response it keeps the validators it had
    and takes the current time as last_checked_at; on any other response it
    takes the ETag and Last-Modified headers of the response (a missing
    header clears the validator) and the current time, also when the body
    then fails to parse.  When the fetch fails, the feed is skipped and the
    database is left as it was. *)
Theorem feed_row_replaced_on_response (cfg : config) (feed_url : string)
    (w : world) :
  let etag := cached_etag (db w) feed_url in
  let last_mod := cached_last_modified (db w) feed_url in
  let o := process_feed charref_sub env cfg feed_url w in
  match http_feed env (tick w) feed_url (sent etag) (sent last_mod) with
  | FeedError =>
      o = Done None (World (db w) (S (tick w)) (GetFeed feed_url :: trace w))
  | NotModified =>
      feeds (db (final_world o)) !! feed_url =
      Some (FeedRow etag last_mod (now_at env (S (tick w))))
  | FeedBody new_etag new_last_modified _ =>
      feeds (db (final_world o)) !! feed_url =
      Some (FeedRow new_etag new_last_modified (now_at env (S (tick w))))
  end.
Proof.
  intros etag last_mod o. subst o. rewrite process_feed_run.
  fold etag. fold last_mod.
  destruct (http_feed env (tick w) feed_url (sent etag) (sent last_mod))
    as [| |new_etag new_last_modified content].
  - reflexivity.
  - simpl. apply lookup_insert_eq.
  - set (row := FeedRow new_etag new_last_modified (now_at env (S (tick w)))).
    apply (bind_keeps (fun w' => feeds (db w') !! feed_url = Some row)).
    { destruct content; simpl; apply lookup_insert_eq. }
    intros items w2 _ Hw2.
    apply bind_keeps; [exact Hw2|]. intros conn w3 E3 Hw3.
    apply bind_keeps; [|intros; assumption].
    now apply process_items_keeps_feed_row.
Qed.

(* ===================================================================== *)
(** ** What the feed parser stores *)
(* ===================================================================== *)

Lemma add_item_fields (raw : dict (option string)) :
  let it := add_item charref_sub raw in
  get "title" it = clean_text charref_sub (get "title" raw) /\
  get "pub_date" it = clean_text charref_sub (get "pub_date" raw) /\
  get "doi" it = clean_text charref_sub (get "doi" raw) /\
  get "journal" it = clean_text charref_sub (get "journal" raw) /\
  get "link" it = get "link" raw /\
  get "id_like" it = get "id_like" raw.
Proof.
  unfold add_item. cbv zeta.
  repeat split;
    repeat first [ rewrite get_set_eq | rewrite get_set_ne by discriminate ];
    reflexivity.
Qed.

(** Every parsed item is [add_item] of the fields read from one element. *)
Lemma parse_root_items (root : element) (it : dict (option string)) :
  it ∈ parse_root charref_sub root ->
  exists e, it = rdf_item charref_sub e \/ it = rss2_item charref_sub e
            \/ it = atom_entry charref_sub e.
Proof.
  unfold parse_root.
  destruct (_ || _).
  { intros H. apply list_elem_of_fmap in H as (x & -> & _).
    exists x. left. reflexivity. }
  destruct (_ || _).
  { destruct (find "channel" root); intros H.
    - apply list_elem_of_fmap in H as (x & -> & _).
      exists x. right. left. reflexivity.
    - now apply elem_of_nil in H. }
  destruct (_ || _).
  { intros H. apply list_elem_of_fmap in H as (x & -> & _).
    exists x. right. right. reflexivity. }
  intros H. now apply elem_of_nil in H.
Qed.


(* ===================================================================== *)
(** ** The uid of a parsed item *)
(* ===================================================================== *)

Lemma truthy_py_or_r (a b : option string) :
  truthy b = true -> truthy (py_or a b) = true.
Proof. unfold py_or. now destruct (truthy a) eqn:E. Qed.

Lemma py_or_falsy_l (a b : option string) : truthy a = false -> py_or a b = b.
Proof. unfold py_or. now intros ->. Qed.

(** The uid of an item whose id_like is truthy whenever its link is never
    comes from the link hash. *)
Lemma no_linkhash (it : dict (option string)) :
  (truthy (get "link" it) = true -> truthy (get "id_like" it) = true) ->
  String.prefix "linkhash:" (compute_uid it) = false.
Proof.
  intros H. unfold compute_uid.
  destruct (get "doi" it) as [[|? ?]|]; try reflexivity;
    destruct (get "id_like" it) as [[|? ?]|]; try reflexivity;
    destruct (get "link" it) as [[|? ?]|]; try reflexivity;
    discriminate (H eq_refl).
Qed.

Lemma id_like_of_link (raw : dict (option string)) (x : option string) :
  get "id_like" raw = py_or x (get "link" raw) ->
  let it := add_item charref_sub raw in
  truthy (get "link" it) = true -> truthy (get "id_like" it) = true.
Proof.
  intros E it. subst it.
  destruct (add_item_fields raw) as (_ & _ & _ & _ & -> & ->).
  rewrite E. apply truthy_py_or_r.
Qed.

Lemma uid_of_link (raw : dict (option string)) (x : option string) (link : string) :
  get "id_like" raw = py_or x (get "link" raw) ->
  truthy x = false ->
  let it := add_item charref_sub raw in
  truthy (get "doi" it) = false ->
  get "link" it = Some link -> link <> "" ->
  compute_uid it = "id:" ++ link.
Proof.
  intros E Hx it Hd Hl Hne.
  apply compute_uid_id; try assumption.
  subst it. destruct (add_item_fields raw) as (_ & _ & _ & _ & L & ->).
  rewrite E, py_or_falsy_l by assumption. now rewrite <- L.
Qed.

(** C6 (amended). The uid of a parsed item never has the prefix
    ["linkhash:"]: the parser copies the link into id_like when the entry
    has no guid (RSS 2.0), no about attribute and no dc:identifier (RDF), no
    id (Atom).  So for an item with no doi whose only identifying data is
    its link, the uid is ["id:"] followed by the link, a function of the
    link alone, the same at every parse. *)
Theorem link_only_item_uid :
  (forall root it,
     it ∈ parse_root charref_sub root ->
     String.prefix "linkhash:" (compute_uid it) = false) /\
  (forall item link,
     let it := rss2_item charref_sub item in
     truthy (xml_text (find "guid" item)) = false ->
     truthy (get "doi" it) = false ->
     get "link" it = Some link -> link <> "" ->
     compute_uid it = "id:" ++ link) /\
  (forall item link,
     let it := rdf_item charref_sub item in
     truthy (attr (ns "rdf" "about") item) = false ->
     truthy (xml_text (find (ns "dc" "identifier") item)) = false ->
     truthy (get "doi" it) = false ->
     get "link" it = Some link -> link <> "" ->
     compute_uid it = "id:" ++ link) /\
  (forall entry link,
     let it := atom_entry charref_sub entry in
     truthy (xml_text (find (ns "atom" "id") entry)) = false ->
     truthy (xml_text (find "id" entry)) = false ->
     truthy (get "doi" it) = false ->
     get "link" it = Some link -> link <> "" ->
     compute_uid it = "id:" ++ link).
Proof.
  split; [|split; [|split]].
  - intros root it Hin. apply no_linkhash.
    destruct (parse_root_items root it Hin) as (e & [-> | [-> | ->]]);
      eapply id_like_of_link; reflexivity.
  - intros item link it Hg. eapply uid_of_link; [reflexivity|exact Hg].
  - intros item link it Ha Hi. eapply uid_of_link; [reflexivity|].
    unfold py_or. now rewrite Ha.
  - intros entry link it Ha Hi. eapply uid_of_link; [reflexivity|].
    unfold py_or. now rewrite Ha.
Qed.
End Run.


(* ===================================================================== *)
(** ** Concrete runs *)
(* ===================================================================== *)



Lemma article_fetch_failure_witness :
  exists w1,
    process_items Demo.no_charref (Demo.server NotModified None) Demo.cfg Demo.feed_url
      [ [("link", Some "http://example.org/1"); ("_uid", Some "id:urn:article:1")];
        [("link", Some "http://example.org/2"); ("_uid", Some "id:urn:article:2")] ]
      Demo.start
    = process_items Demo.no_charref (Demo.server NotModified None) Demo.cfg Demo.feed_url
        [ [("link", Some "http://example.org/2"); ("_uid", Some "id:urn:article:2")] ]
        w1
    /\ articles (db w1) = ∅
    /\ seen (db w1) !! "id:urn:article:1" =
       Some (SeenRow Demo.feed_url "http://example.org/1" None None "2024-01-01T00:00:1").
Proof.
  destruct (article_fetch_failure Demo.no_charref (Demo.server NotModified None)
              Demo.cfg Demo.feed_url
              [("link", Some "http://example.org/1"); ("_uid", Some "id:urn:article:1")]
              [ [("link", Some "http://example.org/2"); ("_uid", Some "id:urn:article:2")] ]
              "id:urn:article:1" Demo.start eq_refl eq_refl)
    as (w1 & _ & H2 & H3 & H4 & _).
  exists w1. split; [exact H2|]. split; [exact H3|exact H4].
Defined.

(** C4, as stated, fails on a failed fetch: the request is made and the row
    of the feed keeps its validators and its last_checked_at. *)
Lemma feed_row_kept_on_failed_fetch :
  match run_pipeline Demo.no_charref (Demo.server FeedError None)
          Demo.cfg Demo.fetched_before with
  | Done written w' =>
      written = nil /\
      trace w' = [GetFeed Demo.feed_url] /\
      feeds (db w') !! Demo.feed_url =
      Some (FeedRow (Some "v1") None "2023-12-31T00:00:00")
  | Raised _ _ => False
  end.
Proof. vm_compute. auto. Qed.

Example feed_row_on_not_modified :
  feeds (db (final_world
               (run_pipeline Demo.no_charref (Demo.server NotModified None)
                  Demo.cfg Demo.fetched_before))) !! Demo.feed_url
  = Some (FeedRow (Some "v1") None "2024-01-01T00:00:1").
Proof. vm_compute. reflexivity. Qed.



Lemma link_only_item_uid_witness :
  compute_uid (rss2_item Demo.no_charref Demo.link_only_item)
  = "id:http://example.org/a  b".
Proof.
  apply (proj1 (proj2 (link_only_item_uid Demo.no_charref)) Demo.link_only_item
               "http://example.org/a  b").
  - reflexivity.
  - reflexivity.
  - reflexivity.
  - discriminate.
Defined.

(** C6, as stated, fails: the uid of an item that has a link and neither
    doi nor guid is ["id:"] and the link, not a link hash. *)
Lemma link_only_uid_is_not_linkhash :
  map compute_uid (parse_root Demo.no_charref (Demo.rss2 [Demo.plain_item]))
  = ["id:http://example.org/article"] /\
  String.prefix "linkhash:" "id:http://example.org/article" = false.
Proof. vm_compute. auto. Qed.

(** C3: the meta-tag layer is skipped when a JSON-LD article object is
    found.  [extract_from_jsonld] returns all of its six keys, with [None]
    for what the object lacks, so [setdefault] finds every key present: the
    page below has a citation_title meta tag and a JSON-LD object without
    headline, and its extracted title is [None]; in the run the title of
    the article row is the title of the feed item. *)
Lemma meta_title_skipped_with_jsonld :
  select_meta Demo.untitled_jsonld_page "citation_title" = Some "Meta title" /\
  extract_article_fields Demo.no_charref Demo.untitled_jsonld_page
    "http://example.org/article"
  = Ok [ ("title", None); ("abstract", Some "An abstract."); ("date_published", None);
         ("journal", None); ("type", None); ("doi", None);
         ("article_url", Some "http://example.org/article") ] /\
  option_map art_title_en
    (articles
       (db (final_world
              (run_pipeline Demo.no_charref
                 (Demo.server (FeedBody None None (Some (Demo.rss2 [Demo.plain_item])))
                              (Some Demo.untitled_jsonld_page))
                 Demo.cfg Demo.start)))
     !! "id:http://example.org/article")
  = Some (Some "Feed title").
Proof. vm_compute. auto. Qed.

Example structured_title_wins :
  option_map art_title_en
    (articles
       (db (final_world
              (run_pipeline Demo.no_charref
                 (Demo.server (FeedBody None None (Some (Demo.rss2 [Demo.plain_item])))
                              (Some Demo.titled_page))
                 Demo.cfg Demo.start)))
     !! "id:http://example.org/article")
  = Some (Some "Structured title").
Proof. vm_compute. reflexivity. Qed.

Example meta_title_without_jsonld :
  extract_article_fields Demo.no_charref
    (Page nil [MetaTag (Some "citation_title") None (Some "Meta title")] nil)
    "http://example.org/article"
  = Ok [ ("journal", None); ("title", Some "Meta title"); ("doi", None);
         ("date_published", None); ("type", None); ("abstract", None);
         ("article_url", Some "http://example.org/article") ].
Proof. vm_compute. reflexivity. Qed.

Lemma mark_seen_idempotent_witness :
  exists w',
    mark_seen (Demo.server NotModified None) "id:urn:article:1"
      "http://example.org/other.rss" "http://example.org/1?again" None None
      Demo.seen_before = Done tt w'
    /\ db w' = db Demo.seen_before.
Proof.
  apply (proj1 (mark_seen_idempotent (Demo.server NotModified None)
                  "id:urn:article:1" "http://example.org/other.rss"
                  "http://example.org/1?again" None None Demo.seen_before)
               (SeenRow Demo.feed_url "http://example.org/1" None None
                        "2023-12-31T00:00:00")).
  apply lookup_insert_eq.
Defined.

(* ===================================================================== *)
(** * Further properties of the code *)
(* ===================================================================== *)

#[local] Arguments Text.isspace : simpl never.
#[local] Arguments unsafe_char : simpl never.
#[local] Arguments dot_or_underscore : simpl never.

(** ** Stripping and collapsing *)

Section Strip.

Variable p : ascii -> bool.

Lemma lstrip_by_first (s : string) (c : ascii) :
  first_char (Text.lstrip_by p s) = Some c -> p c = false.
Proof.
  induction s as [|x s IH]; simpl; [discriminate|].
  destruct (p x) eqn:E; [exact IH|]. simpl. now intros [= <-].
Qed.

Lemma rstrip_by_last (s : string) (c : ascii) :
  last_char (Text.rstrip_by p s) = Some c -> p c = false.
Proof.
  induction s as [|x s IH]; simpl; [discriminate|].
  destruct (Text.rstrip_by p s) as [|y r] eqn:E.
  - destruct (p x) eqn:Ex; simpl; [discriminate|]. now intros [= <-].
  - simpl. exact IH.
Qed.

Lemma rstrip_by_first (s : string) (c : ascii) :
  first_char (Text.rstrip_by p s) = Some c -> first_char s = Some c.
Proof.
  destruct s as [|x s]; simpl; [discriminate|].
  destruct (Text.rstrip_by p s); [destruct (p x)|]; simpl; congruence.
Qed.

Lemma strip_by_trimmed (s : string) :
  trimmed p (Text.rstrip_by p (Text.lstrip_by p s)).
Proof.
  split; intros c H.
  - apply lstrip_by_first with s. now apply rstrip_by_first.
  - now apply rstrip_by_last with (Text.lstrip_by p s).
Qed.

Lemma lstrip_by_id (s : string) :
  (forall c, first_char s = Some c -> p c = false) -> Text.lstrip_by p s = s.
Proof.
  destruct s as [|x s]; simpl; [reflexivity|]. intros H.
  now rewrite (H x eq_refl).
Qed.

Lemma rstrip_by_id (s : string) :
  (forall c, last_char s = Some c -> p c = false) -> Text.rstrip_by p s = s.
Proof.
  induction s as [|x s IH]; simpl; [reflexivity|]. intros H.
  destruct s as [|y s].
  - simpl. now rewrite (H x eq_refl).
  - rewrite IH by exact H. reflexivity.
Qed.

Lemma trimmed_strip_id (s : string) :
  trimmed p s -> Text.rstrip_by p (Text.lstrip_by p s) = s.
Proof. intros [Hf Hl]. rewrite lstrip_by_id by exact Hf. now apply rstrip_by_id. Qed.

(** What holds of every character of a text holds after stripping. *)
Lemma lstrip_by_all (q : ascii -> bool) (s : string) :
  all_chars q s = true -> all_chars q (Text.lstrip_by p s) = true.
Proof.
  induction s as [|x s IH]; simpl; [reflexivity|]. intros H.
  apply andb_true_iff in H as [Hx Hs].
  destruct (p x); [now apply IH|]. simpl. now rewrite Hx, Hs.
Qed.

Lemma rstrip_by_all (q : ascii -> bool) (s : string) :
  all_chars q s = true -> all_chars q (Text.rstrip_by p s) = true.
Proof.
  induction s as [|x s IH]; simpl; [reflexivity|]. intros H.
  apply andb_true_iff in H as [Hx Hs]. specialize (IH Hs).
  destruct (Text.rstrip_by p s) as [|y r].
  - destruct (p x); simpl; [reflexivity|]. now rewrite Hx.
  - simpl in *. now rewrite Hx, IH.
Qed.

End Strip.

Lemma single_spaced_weaken (b : bool) (s : string) :
  single_spaced b s = true -> single_spaced false s = true.
Proof.
  destruct s as [|c s]; simpl; [reflexivity|].
  destruct (Text.isspace c); [|exact id].
  destruct b; simpl; [|exact id]. rewrite andb_false_r. discriminate.
Qed.

Lemma sub_ws_single_spaced (b : bool) (s : string) :
  single_spaced b (Text.sub_ws b s) = true.
Proof.
  revert b. induction s as [|c s IH]; intros b; simpl; [reflexivity|].
  destruct (Text.isspace c) eqn:E.
  - destruct b; [apply IH|]. simpl. now rewrite IH.
  - simpl. rewrite E. apply IH.
Qed.

Lemma sub_ws_id (b : bool) (s : string) :
  single_spaced b s = true -> Text.sub_ws b s = s.
Proof.
  revert b. induction s as [|c s IH]; intros b; simpl; [reflexivity|].
  destruct (Text.isspace c) eqn:E.
  - intros H. apply andb_true_iff in H as [H Hs]. apply andb_true_iff in H as [Hc Hb].
    destruct b; [discriminate|]. apply Ascii.eqb_eq in Hc. subst c.
    now rewrite IH.
  - intros H. now rewrite IH.
Qed.

Lemma lstrip_single_spaced (s : string) :
  single_spaced false s = true ->
  single_spaced false (Text.lstrip_by Text.isspace s) = true.
Proof.
  induction s as [|c s IH]; simpl; [reflexivity|].
  destruct (Text.isspace c) eqn:E; [|simpl; now rewrite E].
  intros H. apply andb_true_iff in H as [_ Hs].
  apply IH. now apply single_spaced_weaken with true.
Qed.

Lemma rstrip_single_spaced (b : bool) (s : string) :
  single_spaced b s = true ->
  single_spaced b (Text.rstrip_by Text.isspace s) = true.
Proof.
  revert b. induction s as [|c s IH]; intros b; simpl; [reflexivity|].
  destruct (Text.isspace c) eqn:E.
  - intros H. apply andb_true_iff in H as [H Hs]. specialize (IH _ Hs).
    destruct (Text.rstrip_by Text.isspace s) as [|y r]; simpl.
    + reflexivity.
    + rewrite E, H. simpl in IH. exact IH.
  - intros H. specialize (IH _ H).
    destruct (Text.rstrip_by Text.isspace s) as [|y r]; simpl; rewrite E.
    + reflexivity.
    + simpl in IH. exact IH.
Qed.

(** X1. The text returned by [clean_text] is in normal form: its only
    white space characters are single spaces between other characters, and
    it neither starts nor ends with white space.  On such a text without
    an ampersand [clean_text] changes nothing, so cleaning twice is the same
    as cleaning once whenever the cleaned text holds no ['&']. *)
Theorem clean_text_normal_form (charref_sub : string -> string) (s r : string) :
  clean_text charref_sub (Some s) = Some r ->
  single_spaced false r = true /\
  trimmed Text.isspace r /\
  (Text.has_char "&" r = false -> clean_text charref_sub (Some r) = Some r).
Proof.
  unfold clean_text. intros [= <-].
  set (t := Text.sub_ws false (html_unescape charref_sub s)).
  assert (Hs : single_spaced false (Text.strip t) = true).
  { unfold Text.strip. apply rstrip_single_spaced, lstrip_single_spaced.
    apply sub_ws_single_spaced. }
  assert (Ht : trimmed Text.isspace (Text.strip t)) by apply strip_by_trimmed.
  split; [exact Hs|]. split; [exact Ht|].
  intros Hamp. unfold html_unescape at 1. rewrite Hamp.
  rewrite (sub_ws_id false _ Hs). f_equal. now apply trimmed_strip_id.
Qed.

Lemma clean_text_normal_form_witness :
  single_spaced false "a b c" = true /\ trimmed Text.isspace "a b c".
Proof.
  destruct (clean_text_normal_form Demo.no_charref "  a   b  c " "a b c" eq_refl)
    as (H1 & H2 & _).
  split; assumption.
Defined.


Lemma all_chars_app (q : ascii -> bool) (a b : string) :
  all_chars q (a ++ b) = all_chars q a && all_chars q b.
Proof. induction a as [|c a IH]; simpl; [reflexivity|]. now rewrite IH, andb_assoc. Qed.

(** ** sanitize_filename *)

Lemma sub_chars_safe (s : string) :
  all_chars (fun c => negb (unsafe_char c)) (sub_chars unsafe_char s) = true.
Proof.
  induction s as [|c s IH]; simpl; [reflexivity|].
  rewrite IH, andb_true_r. now destruct (unsafe_char c) eqn:E; [|rewrite E].
Qed.

Lemma sub_ws_underscore_filename (b : bool) (s : string) :
  all_chars (fun c => negb (unsafe_char c)) s = true ->
  all_chars filename_char (sub_ws_underscore b s) = true.
Proof.
  revert b. induction s as [|c s IH]; intros b; simpl; [reflexivity|].
  intros H. apply andb_true_iff in H as [Hc Hs].
  destruct (Text.isspace c) eqn:E.
  - destruct b; [now apply IH|]. simpl. now rewrite IH.
  - simpl. unfold filename_char at 1. rewrite Hc, E. simpl. now apply IH.
Qed.

(** X3. [sanitize_filename] returns the default, or a non-empty name
    without backslash, slash, colon, star, question mark, double quote,
    angle bracket or bar, without white space,
    and with neither a dot nor an underscore at either end; with a
    non-empty default the result is never empty. *)
Theorem sanitize_filename_safe (s default : string) :
  let r := sanitize_filename s default in
  (r = default \/
   (r <> "" /\ all_chars filename_char r = true /\ trimmed dot_or_underscore r)) /\
  (default <> "" -> r <> "").
Proof.
  cbv zeta. unfold sanitize_filename.
  destruct s as [|c s]; [split; [now left|exact id]|].
  set (t := Text.rstrip_by dot_or_underscore
              (Text.lstrip_by dot_or_underscore
                 (sub_ws_underscore false (sub_chars unsafe_char (String c s))))).
  assert (Ha : all_chars filename_char t = true).
  { apply rstrip_by_all, lstrip_by_all, sub_ws_underscore_filename, sub_chars_safe. }
  assert (Ht : trimmed dot_or_underscore t) by apply strip_by_trimmed.
  destruct t as [|x t']; [split; [now left|exact id]|].
  split; [|discriminate]. right. split; [discriminate|]. now split.
Qed.

Example sanitize_filename_runs :
  map (fun s => sanitize_filename s "report")
      ["Nature  Methods"; "..."; " a/b:c "; "_x_."; ""]
  = ["Nature_Methods"; "report"; "a_b_c"; "x"; "report"].
Proof. vm_compute. reflexivity. Qed.

(** ** guess_doi *)

Lemma span_all (q : ascii -> bool) (s : string) :
  all_chars q (fst (span q s)) = true.
Proof.
  induction s as [|c s IH]; simpl; [reflexivity|].
  destruct (q c) eqn:E; [|reflexivity].
  destruct (span q s) as [a b]. simpl in *. now rewrite E, IH.
Qed.

Lemma doi_at_shape (tail : ascii -> bool) (s m : string) :
  doi_at tail s = Some m ->
  String.prefix "10." s = true /\
  exists digits body,
    m = "10." ++ digits ++ "/" ++ body /\
    (4 <= String.length digits <= 9)%nat /\
    all_chars Text.isdigit digits = true /\
    all_chars tail body = true /\ body <> "".
Proof.
  unfold doi_at. destruct (String.prefix "10." s) eqn:P; [|discriminate].
  pose proof (span_all Text.isdigit
                (String.substring 3 (String.length s - 3) s)) as Hd.
  destruct (span Text.isdigit _) as [digits rest]. simpl in Hd.
  destruct (_ && _) eqn:L; [|discriminate].
  apply andb_true_iff in L as [L1 L2].
  apply Nat.leb_le in L1. apply Nat.leb_le in L2.
  destruct rest as [|x r]; [discriminate|].
  destruct (Ascii.eqb_spec x "/") as [->|Hx].
  2: { destruct x as [[] [] [] [] [] [] [] []]; try discriminate.
       now contradiction Hx. }
  pose proof (span_all tail r) as Hb.
  destruct (fst (span tail r)) as [|y body] eqn:B; [discriminate|].
  intros [= <-]. split; [reflexivity|].
  exists digits, (String y body). repeat split; try assumption; try lia.
  discriminate.
Qed.

Lemma search_doi_at (boundary : bool) (tail : ascii -> bool) (prev : bool)
    (s m : string) :
  search_doi boundary tail prev s = Some m ->
  Text.contains "10." s = true /\ exists s', doi_at tail s' = Some m.
Proof.
  revert prev. induction s as [|c s IH]; intros prev; simpl.
  - destruct (boundary && prev); [discriminate|].
    unfold doi_at. simpl. discriminate.
  - destruct (if boundary && prev then None else doi_at tail (String c s))
      as [m'|] eqn:E.
    + intros [= ->]. destruct (boundary && prev); [discriminate|].
      destruct (doi_at_shape _ _ _ E) as [P _].
      split; [|eauto]. change (String.prefix "10." (String c s) || Text.contains "10." s = true).
      now rewrite P.
    + intros H. destruct (IH _ H) as [C X]. split; [|exact X].
      change (String.prefix "10." (String c s) || Text.contains "10." s = true).
      rewrite C. apply orb_true_r.
Qed.

Lemma rstrip_by_after (q : ascii -> bool) (a b : string) (x : ascii) :
  q x = false ->
  Text.rstrip_by q (a ++ String x b) = a ++ String x (Text.rstrip_by q b).
Proof.
  intros Hx. induction a as [|c a IH]; simpl.
  - destruct (Text.rstrip_by q b); [now rewrite Hx|reflexivity].
  - rewrite IH. now destruct a.
Qed.

(** X4. A DOI returned by [guess_doi] is ["10."], four to nine digits, a
    slash, and a rest without white space, angle brackets or quotes; it
    never ends with one of the characters ) . , ; (the rest is empty when
    the match held nothing but such characters after the slash). *)
Theorem guess_doi_shape (candidates : list (option string)) (doi : string) :
  guess_doi candidates = Some doi ->
  exists digits rest,
    doi = "10." ++ digits ++ "/" ++ rest /\
    (4 <= String.length digits <= 9)%nat /\
    all_chars Text.isdigit digits = true /\
    all_chars doi_char rest = true /\
    (forall c, last_char doi = Some c -> doi_trailing c = false).
Proof.
  induction candidates as [|v rest IH]; [discriminate|].
  cbn [guess_doi]. destruct v as [[|c s]|]; try exact IH.
  destruct (search_doi true doi_char false (String c s)) as [m|] eqn:E; [|exact IH].
  intros [= <-].
  destruct (search_doi_at _ _ _ _ _ E) as (_ & s' & D).
  destruct (doi_at_shape _ _ _ D) as (_ & digits & body & -> & L & Hd & Hb & _).
  exists digits, (Text.rstrip_by doi_trailing body).
  assert (R : Text.rstrip_by doi_trailing ("10." ++ digits ++ "/" ++ body)
              = "10." ++ digits ++ "/" ++ Text.rstrip_by doi_trailing body).
  { change ("10." ++ digits ++ "/" ++ body) with (("10." ++ digits) ++ String "/" body).
    rewrite rstrip_by_after by reflexivity. reflexivity. }
  rewrite R. repeat split; try assumption; try lia.
  - now apply rstrip_by_all.
  - intros x Hx. rewrite <- R in Hx. now apply rstrip_by_last in Hx.
Qed.

Lemma guess_doi_shape_witness :
  exists digits rest,
    "10.1038/s41586-020-2649-2" = "10." ++ digits ++ "/" ++ rest /\
    (4 <= String.length digits <= 9)%nat.
Proof.
  destruct (guess_doi_shape
              [None; Some "see https://doi.org/10.1038/s41586-020-2649-2)."]
              "10.1038/s41586-020-2649-2" eq_refl)
    as (digits & rest & E & L & _).
  exists digits, rest. split; assumption.
Defined.

(** X5. [guess_doi] finds nothing when no candidate holds the text ["10."]:
    candidates that are [None], empty or without it are passed over. *)
Theorem guess_doi_none (candidates : list (option string)) :
  (forall s, Some s ∈ candidates -> Text.contains "10." s = false) ->
  guess_doi candidates = None.
Proof.
  induction candidates as [|v rest IH]; [reflexivity|]. intros H.
  assert (IH' : guess_doi rest = None).
  { apply IH. intros s Hs. apply H. apply elem_of_cons. now right. }
  cbn [guess_doi]. destruct v as [[|c s]|]; try exact IH'.
  destruct (search_doi true doi_char false (String c s)) as [m|] eqn:E; [|exact IH'].
  destruct (search_doi_at _ _ _ _ _ E) as [C _].
  rewrite (H (String c s)) in C; [discriminate|]. apply list_elem_of_here.
Qed.

Lemma guess_doi_none_witness :
  guess_doi [Some "urn:article:1"; None; Some "http://example.org/1"] = None.
Proof.
  apply guess_doi_none. intros s Hs.
  apply list_elem_of_In in Hs. simpl in Hs.
  destruct Hs as [H|[H|[H|[]]]]; try discriminate; injection H as <-; reflexivity.
Defined.

(** ** sha256 and the hashed uids *)

Lemma hexdigit_lower_hex (x : N) : lower_hex (Text.hexdigit (N.land x 15)) = true.
Proof.
  assert (H : (N.land x 15 < 16)%N).
  { change 15%N with (N.ones 4). rewrite N.land_ones. now apply N.mod_lt. }
  destruct (N.land x 15) as [|p]; [reflexivity|].
  do 4 (destruct p as [p|p|]; try reflexivity; try lia).
Qed.

Lemma hex8_lower_hex (x : N) : all_chars lower_hex (Sha256.hex8 x) = true.
Proof. unfold Sha256.hex8. cbn [all_chars]. now rewrite !hexdigit_lower_hex. Qed.

Lemma take_all (q : ascii -> bool) (n : nat) (s : string) :
  all_chars q s = true -> all_chars q (Text.take n s) = true.
Proof.
  revert s. induction n as [|n IH]; intros [|c s]; simpl; try reflexivity.
  intros H. apply andb_true_iff in H as [-> Hs]. now apply IH.
Qed.

(** X6. [sha256] returns 64 lowercase hexadecimal digits for every text;
    so the uid of an item without doi and id_like is ["linkhash:"] or
    ["hash:"] followed by exactly 16 lowercase hexadecimal digits. *)
Theorem hashed_uid_shape (text : string) (item : dict (option string)) :
  (String.length (sha256 text) = 64%nat /\ all_chars lower_hex (sha256 text) = true) /\
  (truthy (get "doi" item) = false -> truthy (get "id_like" item) = false ->
   exists prefix payload,
     compute_uid item = prefix ++ payload /\
     (prefix = "linkhash:" \/ prefix = "hash:") /\
     String.length payload = 16%nat /\ all_chars lower_hex payload = true).
Proof.
  assert (Hhex : forall t, all_chars lower_hex (sha256 t) = true).
  { intros t. unfold sha256, Sha256.hexdigest.
    rewrite !all_chars_app, !hex8_lower_hex. reflexivity. }
  split; [split; [apply sha256_length | apply Hhex]|].
  intros Hd Hi. unfold compute_uid.
  destruct (get "doi" item) as [[|? ?]|]; try discriminate;
    destruct (get "id_like" item) as [[|? ?]|]; try discriminate;
    destruct (get "link" item) as [[|c s]|];
    try (exists "linkhash:", (Text.take 16 (sha256 (String c s)));
         split; [reflexivity|]; split; [now left|];
         split; [apply digest16_length | apply take_all, Hhex]);
    (eexists "hash:", _; split; [reflexivity|]; split; [now right|];
     split; [apply digest16_length | apply take_all, Hhex]).
Qed.

Lemma hashed_uid_shape_witness :
  exists prefix payload,
    compute_uid [("doi", None); ("id_like", Some ""); ("link", Some "http://example.org/a")]
    = prefix ++ payload /\ String.length payload = 16%nat.
Proof.
  destruct (proj2 (hashed_uid_shape ""
                     [("doi", None); ("id_like", Some "");
                      ("link", Some "http://example.org/a")])
                  eq_refl eq_refl)
    as (prefix & payload & E & _ & L & _).
  exists prefix, payload. split; assumption.
Defined.

(** ** parse_feed *)

(** X7. Every item returned by [parse_feed] has the six keys title, link,
    id_like, pub_date, doi and journal, in this order, whatever the
    dialect; and a document that is none of the three dialects gives no
    item. *)
Theorem parsed_item_keys (charref_sub : string -> string) (root : element) :
  (forall it, it ∈ parse_root charref_sub root ->
     keys it = ["title"; "link"; "id_like"; "pub_date"; "doi"; "journal"]) /\
  (let tag := local_name (el_tag root) in
   tag <> "RDF" -> tag <> "rss" -> tag <> "feed" ->
   find (ns "rss" "channel") root = None -> find "channel" root = None ->
   find (ns "atom" "feed") root = None ->
   parse_root charref_sub root = nil).
Proof.
  split.
  - intros it Hin.
    destruct (parse_root_items charref_sub root it Hin) as (e & [-> | [-> | ->]]);
      reflexivity.
  - cbv zeta. intros H1 H2 H3 F1 F2 F3. unfold parse_root.
    rewrite F1, F2, F3.
    destruct (String.eqb_spec (local_name (el_tag root)) "RDF"); [contradiction|].
    destruct (String.eqb_spec (local_name (el_tag root)) "rss"); [contradiction|].
    destruct (String.eqb_spec (local_name (el_tag root)) "feed"); [contradiction|].
    reflexivity.
Qed.

Lemma parsed_item_keys_witness :
  parse_root Demo.no_charref (Element "html" nil None [Demo.plain_item]) = nil.
Proof.
  apply (proj2 (parsed_item_keys Demo.no_charref
                  (Element "html" nil None [Demo.plain_item])));
    (discriminate || reflexivity).
Defined.

(** X8. In the Atom branch the element found for [rel="alternate"] is
    tested for truth, and an element without child elements is falsy: its
    href is then not used, and the link of the entry comes from a child
    with the plain tag [link], or is [None] when there is none. *)
Theorem atom_alternate_link_without_children (charref_sub : string -> string)
    (entry link_el : element) :
  find_attr (ns "atom" "link") "rel" "alternate" entry = Some link_el ->
  el_children link_el = nil ->
  get "link" (atom_entry charref_sub entry) =
  match find "link" entry with
  | Some e => attr "href" e
  | None => None
  end.
Proof.
  intros Hf Hc.
  unfold atom_entry.
  match goal with
  | |- get "link" (add_item _ ?raw) = _ =>
      destruct (add_item_fields charref_sub raw) as (_ & _ & _ & _ & -> & _)
  end.
  unfold get. simpl dict_lookup. rewrite Hf.
  destruct link_el as [t a x ch]. simpl in Hc. subst ch. reflexivity.
Qed.

Lemma atom_alternate_link_without_children_witness :
  get "link" (atom_entry Demo.no_charref Demo2.atom_entry_with_link) = None.
Proof.
  apply (atom_alternate_link_without_children Demo.no_charref
           Demo2.atom_entry_with_link Demo2.atom_link); reflexivity.
Defined.

(** ** Article extraction *)

Lemma is_article_type_nonnull (t : json) : is_article_type t = true -> t <> JNull.
Proof. now destruct t. Qed.



Lemma pick_article_obj_nonempty (jsonlds : list json) (obj : dict json) :
  pick_article_obj jsonlds = Ok (Some obj) -> obj <> nil.
Proof.
  induction jsonlds as [|v rest IH]; simpl; [discriminate|].
  destruct v as [| | | | | |o]; try discriminate.
  unfold mbind, result_bind.
  destruct o as [|kv o']; [exact IH|].
  match goal with
  | |- match ?x with Ok _ => _ | Err _ => _ end = _ -> _ =>
      destruct x as [t|e]; [|discriminate]
  end.
  destruct (is_article_type t); [|exact IH].
  intros [= <-]. discriminate.
Qed.

Lemma extract_from_jsonld_keys (charref_sub : string -> string) (obj : dict json)
    (base : dict (option string)) :
  extract_from_jsonld charref_sub obj = Ok base ->
  exists t a d j ty doi,
    base = [ ("title", t); ("abstract", a); ("date_published", d);
             ("journal", j); ("type", ty); ("doi", doi) ].
Proof.
  unfold extract_from_jsonld, mbind, result_bind.
  repeat match goal with
         | |- match ?x with Ok _ => _ | Err _ => _ end = Ok _ -> _ =>
             destruct x; [|discriminate]
         end.
  intros [= <-]. eauto 10.
Qed.

(** The course of [extract_article_fields]: the fields [b] after the
    structured data and the meta tags, then the heuristic search when the
    abstract of [b] is falsy, then the url. *)
Lemma extract_article_fields_run (charref_sub : string -> string) (soup : page)
    (url : string) (fields : dict (option string)) :
  extract_article_fields charref_sub soup url = Ok fields ->
  exists b,
    match pick_article_obj (parse_jsonld soup) with
    | Ok (Some obj) => extract_from_jsonld charref_sub obj = Ok b
    | Ok None =>
        b = [ ("journal", select_meta soup "citation_journal_title");
              ("title", select_meta soup "citation_title");
              ("doi", select_meta soup "citation_doi");
              ("date_published", select_meta soup "citation_publication_date");
              ("type", select_meta soup "citation_article_type");
              ("abstract", py_or (select_meta soup "dc.description")
                                 (select_meta soup "description")) ]
    | Err _ => False
    end /\
    fields =
    dict_set "article_url" (Some url)
      (if truthy (get "abstract" b) then b
       else match heuristic_abstract charref_sub soup with
            | Some v => dict_set "abstract" v b
            | None => b
            end).
Proof.
  unfold extract_article_fields, mbind, result_bind.
  destruct (pick_article_obj (parse_jsonld soup)) as [[obj|]|e] eqn:P;
    [| |discriminate].
  - pose proof (pick_article_obj_nonempty _ _ P) as Hne.
    destruct obj as [|kv obj']; [contradiction|]. cbn [fields_of].
    destruct (extract_from_jsonld charref_sub (kv :: obj')) as [b|e] eqn:E;
      [|discriminate].
    destruct (extract_from_jsonld_keys _ _ _ E) as (t & a & d & j & ty & doi & ->).
    intros [= <-]. eexists. split; [reflexivity|].
    f_equal. cbn [dict_setdefault dict_lookup String.eqb Ascii.eqb Bool.eqb].
    unfold heuristic_abstract.
    destruct (truthy _); [reflexivity|].
    destruct (abstract_by_id soup); [reflexivity|].
    destruct (abstract_by_class soup); [reflexivity|].
    destruct (og_description soup) as [og|]; [|reflexivity].
    now destruct (meta_content og) as [[|? ?]|].
  - cbn [fields_of]. intros [= <-]. eexists. split; [reflexivity|].
    f_equal. unfold heuristic_abstract.
    destruct (truthy _); [reflexivity|].
    destruct (abstract_by_id soup); [reflexivity|].
    destruct (abstract_by_class soup); [reflexivity|].
    destruct (og_description soup) as [og|]; [|reflexivity].
    now destruct (meta_content og) as [[|? ?]|].
Qed.

Lemma get_after_heuristics (k : string) (url : string) (b : dict (option string))
    (h : option (option string)) :
  k <> "abstract" -> k <> "article_url" ->
  get k (dict_set "article_url" (Some url)
           (if truthy (get "abstract" b) then b
            else match h with
                 | Some v => dict_set "abstract" v b
                 | None => b
                 end)) = get k b.
Proof.
  intros H1 H2. rewrite get_set_ne by congruence.
  destruct (truthy _); [reflexivity|]. destruct h; [|reflexivity].
  now rewrite get_set_ne by congruence.
Qed.

(** X10. [extract_article_fields] takes journal, title, doi, date_published
    and type from the citation meta tags exactly when no JSON-LD article
    object is picked; when one is picked these five fields are those of
    [extract_from_jsonld], [None] included, whatever the meta tags hold.
    The field article_url is always the url given. *)
Theorem meta_tags_only_without_jsonld_object (charref_sub : string -> string)
    (soup : page) (url : string) (fields : dict (option string)) :
  extract_article_fields charref_sub soup url = Ok fields ->
  get "article_url" fields = Some url /\
  match pick_article_obj (parse_jsonld soup) with
  | Ok (Some obj) =>
      exists base,
        extract_from_jsonld charref_sub obj = Ok base /\
        get "journal" fields = get "journal" base /\
        get "title" fields = get "title" base /\
        get "doi" fields = get "doi" base /\
        get "date_published" fields = get "date_published" base /\
        get "type" fields = get "type" base
  | Ok None =>
      get "journal" fields = select_meta soup "citation_journal_title" /\
      get "title" fields = select_meta soup "citation_title" /\
      get "doi" fields = select_meta soup "citation_doi" /\
      get "date_published" fields = select_meta soup "citation_publication_date" /\
      get "type" fields = select_meta soup "citation_article_type"
  | Err _ => False
  end.
Proof.
  intros H. destruct (extract_article_fields_run _ _ _ _ H) as (b & Hb & ->).
  split; [apply get_set_eq|].
  destruct (pick_article_obj (parse_jsonld soup)) as [[obj|]|e]; [| |exact Hb].
  - exists b. split; [exact Hb|].
    repeat split; apply get_after_heuristics; discriminate.
  - repeat split; rewrite get_after_heuristics by discriminate;
      subst b; reflexivity.
Qed.

Lemma meta_tags_only_without_jsonld_object_witness :
  get "title" [ ("title", None); ("abstract", Some "An abstract.");
                ("date_published", None); ("journal", None); ("type", None);
                ("doi", None); ("article_url", Some "http://example.org/article") ]
  = None.
Proof.
  destruct (meta_tags_only_without_jsonld_object Demo.no_charref
              Demo.untitled_jsonld_page "http://example.org/article" _ eq_refl)
    as (_ & base & E & _ & T & _).
  injection E as <-. exact T.
Defined.

(** X11. The abstract of [extract_article_fields]: when the abstract left
    by the structured data (if an object was picked) or by the description
    meta tags (if none was) is truthy, it is kept; otherwise the text of
    the first section, div or p whose id holds "abstract" is cleaned and
    used, else that of the first section or div with such a class, else
    the og:description meta tag, and without any of them the abstract
    stays as it was. *)
Theorem abstract_layers (charref_sub : string -> string) (soup : page)
    (url : string) (fields : dict (option string)) :
  extract_article_fields charref_sub soup url = Ok fields ->
  exists a0,
    match pick_article_obj (parse_jsonld soup) with
    | Ok (Some obj) =>
        exists base, extract_from_jsonld charref_sub obj = Ok base /\
                     a0 = get "abstract" base
    | Ok None =>
        a0 = py_or (select_meta soup "dc.description") (select_meta soup "description")
    | Err _ => False
    end /\
    get "abstract" fields =
    if truthy a0 then a0
    else match heuristic_abstract charref_sub soup with
         | Some a => a
         | None => a0
         end.
Proof.
  intros H. destruct (extract_article_fields_run _ _ _ _ H) as (b & Hb & ->).
  exists (get "abstract" b). split.
  - destruct (pick_article_obj (parse_jsonld soup)) as [[obj|]|e]; [| |exact Hb].
    + now exists b.
    + subst b. reflexivity.
  - rewrite get_set_ne by discriminate.
    destruct (truthy (get "abstract" b)); [reflexivity|].
    destruct (heuristic_abstract charref_sub soup); [|reflexivity].
    apply get_set_eq.
Qed.

Lemma abstract_layers_witness :
  exists a0,
    get "abstract"
      [ ("journal", None); ("title", None); ("doi", None); ("date_published", None);
        ("type", None); ("abstract", Some "Background: ...");
        ("article_url", Some "http://example.org/article") ]
    = if truthy a0 then a0
      else match heuristic_abstract Demo.no_charref
                   (Page nil nil [PageTag "div" (Some "Abstract-section") nil
                                          "Background:  ..."]) with
           | Some a => a
           | None => a0
           end.
Proof.
  destruct (abstract_layers Demo.no_charref
              (Page nil nil [PageTag "div" (Some "Abstract-section") nil
                                     "Background:  ..."])
              "http://example.org/article" _ eq_refl)
    as (a0 & _ & E).
  exists a0. exact E.
Defined.

(** ** Translation *)

Lemma translate_chunks_run (env : Env) (texts : list string) (w : world) :
  exists outs w',
    translate_chunks env texts w = Done outs w' /\
    db w' = db w /\
    Forall2 (fun t o => (t = "" /\ o = "") \/
                        (t <> "" /\ (o = t \/ exists n, chat_completion env n t = Some o)))
            texts outs.
Proof.
  revert w. induction texts as [|chunk rest IH]; intros w.
  - exists nil, w. repeat split. constructor.
  - simpl. unfold mbind, M_bind.
    destruct chunk as [|c s].
    + destruct (IH w) as (outs & w' & E & D & F). simpl. rewrite E.
      exists ("" :: outs), w'. repeat split; [assumption|].
      constructor; [now left|assumption].
    + cbn [translate_chunk].
      destruct (IH (World (db w) (S (tick w)) (PostTranslation (String c s) :: trace w)))
        as (outs & w' & E & D & F).
      rewrite E. eexists (_ :: outs), w'. repeat split; [assumption|].
      constructor; [|assumption]. right. split; [discriminate|].
      destruct (chat_completion env (tick w) (String c s)) eqn:C; eauto.
Qed.

(** X12. [translate_openai_en2zh] never raises and returns one text for
    each text given, in order: the empty text for an empty one, otherwise a
    text returned by the service or, when the request fails, the text
    itself.  It leaves the database alone, and without an API key it
    returns the texts as they are without any request. *)
Theorem translate_openai_en2zh_total (env : Env) (texts : list string)
    (cfg : config) (w : world) :
  exists outs w',
    translate_openai_en2zh env texts cfg w = Done outs w' /\
    length outs = length texts /\
    db w' = db w /\
    Forall2 (fun t o => (t = "" /\ o = "") \/
                        (t <> "" /\ (o = t \/ exists n, chat_completion env n t = Some o)))
            texts outs /\
    (truthy (cfg_openai_api_key cfg) = false -> outs = texts /\ w' = w).
Proof.
  unfold translate_openai_en2zh. destruct (truthy (cfg_openai_api_key cfg)).
  - destruct (translate_chunks_run env texts w) as (outs & w' & E & D & F).
    exists outs, w'. repeat split; try assumption; try discriminate.
    symmetry. now apply (Forall2_length _ _ _ F).
  - exists texts, w. repeat split.
    induction texts as [|t rest IH]; constructor; [|exact IH].
    destruct t; [now left|]. right. split; [discriminate|now left].
Qed.

(** ** The stores *)

(** X13. Marking a uid as seen removes from the result of
    [check_new_items] exactly the items that produce this uid: the result
    for the new database is the result for the old one on the items with
    another uid. *)
Theorem check_new_items_after_mark_seen (env : Env)
    (uid feed_url article_url : string) (doi pub_date : option string)
    (w : world) (url : string) (feed_items : list (dict (option string))) :
  check_new_items
    (db (final_world (mark_seen env uid feed_url article_url doi pub_date w)))
    url feed_items
  = check_new_items (db w) url
      (List.filter (fun it => negb (String.eqb (compute_uid it) uid)) feed_items).
Proof.
  rewrite mark_seen_run. cbn [final_world db].
  induction feed_items as [|it rest IH]; [reflexivity|].
  cbn [check_new_items List.filter].
  destruct (String.eqb_spec (compute_uid it) uid) as [E|Hne]; cbn [negb].
  - rewrite E at 1. rewrite insert_or_ignore_seen_lookup. exact IH.
  - cbn [check_new_items]. rewrite insert_or_ignore_seen_other by congruence.
    destruct (seen (db w) !! compute_uid it); [exact IH|]. now rewrite IH.
Qed.

(** X14. [upsert_article] touches one row only: the feeds table, the seen
    table and the rows of the other uids are unchanged and no call to the
    outside is logged.  The row of the uid keeps the feed_url and the
    fetched_at it had when it existed already, so an article stays with
    the feed that stored it first; otherwise it gets the feed_url given and
    the time of the call. *)
Theorem upsert_article_frame (env : Env) (uid feed_url : string)
    (fields : dict (option string)) (raw_jsonld : option (dict json)) (w : world) :
  exists w' row,
    upsert_article env uid feed_url fields raw_jsonld w = Done tt w' /\
    feeds (db w') = feeds (db w) /\ seen (db w') = seen (db w) /\
    trace w' = trace w /\
    (forall uid', uid' <> uid -> articles (db w') !! uid' = articles (db w) !! uid') /\
    articles (db w') !! uid = Some row /\
    match articles (db w) !! uid with
    | Some old => art_feed_url row = art_feed_url old /\
                  art_fetched_at row = art_fetched_at old
    | None => art_feed_url row = feed_url /\
              art_fetched_at row = now_at env (tick w)
    end.
Proof.
  destruct (upsert_article_run env uid feed_url fields raw_jsonld w)
    as (r & E & F & _ & _ & _ & _ & _ & _ & _ & _ & _ & _ & T & _).
  eexists _, _. split; [exact E|]. cbn [db trace].
  split; [reflexivity|]. split; [reflexivity|]. split; [reflexivity|].
  split; [intros uid' Hne; now apply insert_or_update_article_other|].
  split; [apply insert_or_update_article_lookup|].
  destruct (articles (db w) !! uid); simpl; auto.
Qed.

(** ** get_last_new_ts_for_feed *)

Lemma str_leb_refl (a : string) : str_leb a a = true.
Proof. destruct (str_leb_total a a); assumption. Qed.

Lemma str_leb_empty (a : string) : str_leb a "" = true -> a = "".
Proof. now destruct a. Qed.

(** The fold of [max_first_seen_at] gives the greatest first_seen_at among
    the rows of the feed. *)
Lemma max_first_seen_at_spec (feed_url : string) (rows : gmap string seen_row) :
  match max_first_seen_at feed_url rows with
  | Some ts =>
      (exists uid row, rows !! uid = Some row /\ seen_feed_url row = feed_url /\
                       seen_first_seen_at row = ts) /\
      (forall uid row, rows !! uid = Some row -> seen_feed_url row = feed_url ->
                       str_leb (seen_first_seen_at row) ts = true)
  | None =>
      forall uid row, rows !! uid = Some row -> seen_feed_url row <> feed_url
  end.
Proof.
  unfold max_first_seen_at.
  apply (map_fold_weak_ind
           (fun (r : option string) (m : gmap string seen_row) =>
              match r with
              | Some ts =>
                  (exists uid row, m !! uid = Some row /\ seen_feed_url row = feed_url /\
                                   seen_first_seen_at row = ts) /\
                  (forall uid row, m !! uid = Some row -> seen_feed_url row = feed_url ->
                                   str_leb (seen_first_seen_at row) ts = true)
              | None =>
                  forall uid row, m !! uid = Some row -> seen_feed_url row <> feed_url
              end)).
  - intros uid row H. now rewrite lookup_empty in H.
  - intros i x m r Hi IH.
    destruct (String.eqb_spec (seen_feed_url x) feed_url) as [Ex|Nx].
    + destruct r as [best|].
      * destruct IH as ((u & row & Hu & Hf & Ht) & Hmax).
        destruct (str_leb best (seen_first_seen_at x)) eqn:L.
        -- split.
           ++ exists i, x. now rewrite lookup_insert_eq.
           ++ intros uid row' Hl Hf'.
              destruct (decide (i = uid)) as [->|Hne].
              ** rewrite lookup_insert_eq in Hl. injection Hl as <-.
                 apply str_leb_refl.
              ** rewrite lookup_insert_ne in Hl by assumption.
                 eapply str_leb_trans; [now apply (Hmax uid)|exact L].
        -- split.
           ++ exists u, row. split; [|now split].
              rewrite lookup_insert_ne; [assumption|]. intros ->. congruence.
           ++ intros uid row' Hl Hf'.
              destruct (decide (i = uid)) as [->|Hne].
              ** rewrite lookup_insert_eq in Hl. injection Hl as <-.
                 destruct (str_leb_total best (seen_first_seen_at x)); congruence.
              ** rewrite lookup_insert_ne in Hl by assumption. now apply (Hmax uid).
      * split.
        -- exists i, x. now rewrite lookup_insert_eq.
        -- intros uid row' Hl Hf'.
           destruct (decide (i = uid)) as [->|Hne].
           ++ rewrite lookup_insert_eq in Hl. injection Hl as <-. apply str_leb_refl.
           ++ rewrite lookup_insert_ne in Hl by assumption.
              now contradiction (IH uid row').
    + assert (Hother : forall uid row', <[i:=x]> m !! uid = Some row' ->
                         seen_feed_url row' = feed_url -> m !! uid = Some row').
      { intros uid row' Hl Hf'. destruct (decide (i = uid)) as [->|Hne].
        - rewrite lookup_insert_eq in Hl. congruence.
        - now rewrite lookup_insert_ne in Hl. }
      destruct r as [best|].
      * destruct IH as ((u & row & Hu & Hf & Ht) & Hmax). split.
        -- exists u, row. split; [|now split].
           rewrite lookup_insert_ne; [assumption|]. intros ->. congruence.
        -- intros uid row' Hl Hf'. apply (Hmax uid); [|assumption].
           now apply Hother.
      * intros uid row' Hl Hf'. apply (IH uid row'); [|assumption].
        now apply Hother.
Qed.

(** X15. [get_last_new_ts_for_feed] returns the greatest first_seen_at
    (in the order of the texts) among the seen rows of the feed: a value
    returned is not empty, belongs to a row of the feed and is not below
    that of any row of the feed; nothing is returned only when the feed has
    no row with a non-empty first_seen_at.  Rows of other feeds do not
    count. *)
Theorem get_last_new_ts_for_feed_max (conn : database) (feed_url : string) :
  match get_last_new_ts_for_feed conn feed_url with
  | Some ts =>
      ts <> "" /\
      (exists uid row, seen conn !! uid = Some row /\ seen_feed_url row = feed_url /\
                       seen_first_seen_at row = ts) /\
      (forall uid row, seen conn !! uid = Some row -> seen_feed_url row = feed_url ->
                       str_leb (seen_first_seen_at row) ts = true)
  | None =>
      forall uid row, seen conn !! uid = Some row -> seen_feed_url row = feed_url ->
                      seen_first_seen_at row = ""
  end.
Proof.
  unfold get_last_new_ts_for_feed.
  pose proof (max_first_seen_at_spec feed_url (seen conn)) as H.
  destruct (max_first_seen_at feed_url (seen conn)) as [[|c ts]|].
  - destruct H as [_ Hmax]. intros uid row Hl Hf.
    apply str_leb_empty. now apply (Hmax uid).
  - destruct H as [Hex Hmax]. split; [discriminate|]. now split.
  - intros uid row Hl Hf. now contradiction (H uid row).
Qed.

Example get_last_new_ts_for_feed_run :
  get_last_new_ts_for_feed
    (Database ∅
       (<["u1" := SeenRow "f" "" None None "2024-01-02T10:00:00"]>
          (<["u2" := SeenRow "f" "" None None "2024-01-10T09:00:00"]>
             (<["u3" := SeenRow "g" "" None None "2025-01-01T00:00:00"]> ∅)))
       ∅) "f"
  = Some "2024-01-10T09:00:00".
Proof. vm_compute. reflexivity. Qed.

(** ** majority_journal *)

Lemma journal_count_cons (j : string) (na : NewArticle) (rest : list NewArticle) :
  journal_count j (na :: rest) =
  ((match get "journal" (na_meta na) with
    | Some j' => if String.eqb j' j then 1 else 0
    | None => 0
    end) + journal_count j rest)%nat.
Proof.
  unfold journal_count. cbn [List.filter].
  destruct (get "journal" (na_meta na)) as [j'|]; [|reflexivity].
  now destruct (String.eqb j' j).
Qed.

(** The counter after the loop: the count of a non-empty journal is what
    the counter held for it plus the number of items of this journal. *)
Lemma count_journals_lookup (items : list NewArticle) (counter : dict nat)
    (j : string) :
  j <> "" ->
  dict_lookup j (count_journals items counter) =
  match dict_lookup j counter, journal_count j items with
  | None, O => None
  | Some n, c => Some (n + c)%nat
  | None, c => Some c
  end.
Proof.
  intros Hj. revert counter.
  induction items as [|na rest IH]; intros counter.
  - cbn [count_journals]. unfold journal_count. simpl.
    destruct (dict_lookup j counter); [f_equal; lia|reflexivity].
  - cbn [count_journals]. rewrite journal_count_cons.
    destruct (get "journal" (na_meta na)) as [[|c s]|].
    + destruct (String.eqb_spec "" j) as [E|_]; [congruence|]. apply IH.
    + rewrite IH. destruct (String.eqb_spec (String c s) j) as [->|Hne].
      * rewrite dict_lookup_set_eq.
        destruct (dict_lookup j counter) as [n|]; cbn; f_equal; lia.
      * rewrite dict_lookup_set_ne by assumption. reflexivity.
    + apply IH.
Qed.

Lemma dict_set_keys {V} (k : string) (v : V) (d : dict V) :
  keys (dict_set k v d) = if is_some (dict_lookup k d) then keys d else (keys d ++ [k])%list.
Proof.
  induction d as [|[k' v'] d IH]; simpl; [reflexivity|].
  destruct (String.eqb_spec k k') as [->|Hne]; simpl; [reflexivity|].
  rewrite IH. now destruct (is_some (dict_lookup k d)).
Qed.

Lemma dict_lookup_none_keys {V} (k : string) (d : dict V) :
  dict_lookup k d = None -> k ∉ keys d.
Proof.
  induction d as [|[k' v'] d IH]; simpl.
  - intros _ H. now apply elem_of_nil in H.
  - destruct (String.eqb_spec k k') as [->|Hne]; [discriminate|].
    intros H Hin. apply elem_of_cons in Hin as [E|Hin]; [contradiction|].
    now apply IH.
Qed.

Lemma count_journals_nodup (items : list NewArticle) (counter : dict nat) :
  NoDup (keys counter) -> "" ∉ keys counter ->
  NoDup (keys (count_journals items counter)) /\
  "" ∉ keys (count_journals items counter).
Proof.
  revert counter. induction items as [|na rest IH]; intros counter Hnd He;
    cbn [count_journals]; [now split|].
  destruct (get "journal" (na_meta na)) as [[|c s]|]; try now apply IH.
  apply IH; rewrite dict_set_keys;
    destruct (dict_lookup (String c s) counter) eqn:L; cbn [is_some];
    try assumption.
  - apply NoDup_app. split; [assumption|]. split.
    + intros x Hx Hx'. apply list_elem_of_singleton in Hx'. subst x.
      now apply (dict_lookup_none_keys _ _ L).
    + apply NoDup_singleton.
  - intros H. apply elem_of_app in H as [H|H]; [contradiction|].
    apply list_elem_of_singleton in H. discriminate.
Qed.

(** The first entry of the sorted counter is an entry of the counter with
    the greatest count. *)
Lemma sorted_by_count_head (d : dict nat) :
  match sorted_by_count d with
  | nil => d = nil
  | (j, n) :: _ => (j, n) ∈ d /\ forall j' n', (j', n') ∈ d -> (n' <= n)%nat
  end.
Proof.
  induction d as [|[k v] d IH]; [reflexivity|]. cbn [sorted_by_count].
  destruct (sorted_by_count d) as [|[j n] s]; cbn [insert_by_count].
  - subst d. split; [apply list_elem_of_here|].
    intros j' n' H. apply list_elem_of_singleton in H. injection H as -> ->. lia.
  - destruct IH as [Hin Hmax]. cbn [snd].
    destruct (Nat.leb_spec n v) as [L|L].
    + split; [apply list_elem_of_here|].
      intros j' n' H. apply elem_of_cons in H as [[= -> ->]|H]; [lia|].
      specialize (Hmax _ _ H). lia.
    + split; [apply elem_of_cons; now right|].
      intros j' n' H. apply elem_of_cons in H as [[= -> ->]|H]; [lia|].
      now apply (Hmax j').
Qed.

(** X16. [majority_journal] returns a non-empty journal carried by at
    least one item and by at least as many items as any other non-empty
    journal; it returns [None] exactly when no item has a non-empty
    journal. *)
Theorem majority_journal_max (items : list NewArticle) :
  match majority_journal items with
  | Some j =>
      j <> "" /\ (0 < journal_count j items)%nat /\
      forall j', j' <> "" -> (journal_count j' items <= journal_count j items)%nat
  | None =>
      forall na, na ∈ items -> truthy (get "journal" (na_meta na)) = false
  end.
Proof.
  unfold majority_journal.
  pose proof (sorted_by_count_head (count_journals items nil)) as H.
  destruct (count_journals_nodup items nil (@NoDup_nil_2 string)) as [Hnd He].
  { intros X. now apply elem_of_nil in X. }
  assert (L : forall j, j <> "" ->
              dict_lookup j (count_journals items nil) =
              match journal_count j items with O => None | c => Some c end).
  { intros j Hj. now rewrite count_journals_lookup. }
  destruct (sorted_by_count (count_journals items nil)) as [|[j n] s].
  - intros na Hin. destruct (get "journal" (na_meta na)) as [[|c t]|] eqn:G;
      try reflexivity.
    exfalso. specialize (L (String c t)). rewrite H in L. cbn in L.
    assert (0 < journal_count (String c t) items)%nat.
    { clear -Hin G. induction Hin as [na rest|na' na rest Hin IH];
        rewrite journal_count_cons.
      - rewrite G, String.eqb_refl. lia.
      - specialize (IH G). lia. }
    destruct (journal_count (String c t) items); [lia|]. now specialize (L ltac:(discriminate)).
  - destruct H as [Hin Hmax].
    assert (Hj : j <> "").
    { intros ->. apply He. apply (list_elem_of_fmap_2 fst) in Hin. exact Hin. }
    pose proof (dict_lookup_in _ _ _ Hnd Hin) as Lj. rewrite (L j Hj) in Lj.
    destruct (journal_count j items) as [|c] eqn:C; [discriminate|].
    injection Lj as <-.
    split; [exact Hj|]. split; [lia|].
    intros j' Hj'. specialize (L j' Hj').
    destruct (journal_count j' items) as [|c'] eqn:C'; [lia|].
    apply dict_lookup_some_in in L. now apply (Hmax j').
Qed.

Example majority_journal_run :
  let na j := mkNewArticle "" "" "" None None [("journal", j)] "" in
  majority_journal [na (Some "a"); na (Some "b"); na None; na (Some "c");
                    na (Some "b"); na (Some "c"); na (Some "")]
  = Some "b".
Proof. vm_compute. reflexivity. Qed.

(** ** The feeds of a run *)

(** X17. A feed whose fetch fails is skipped and nothing else: the loop
    over the feeds goes on with the remaining feeds from the same database,
    and the failed feed has no entry among the reports written. *)
Theorem feed_fetch_failure_isolated (charref_sub : string -> string) (env : Env)
    (cfg : config) (feed_url : string) (rest : list string) (w : world) :
  http_feed env (tick w) feed_url (sent (cached_etag (db w) feed_url))
            (sent (cached_last_modified (db w) feed_url)) = FeedError ->
  process_feeds charref_sub env cfg (feed_url :: rest) w =
  process_feeds charref_sub env cfg rest
    (World (db w) (S (tick w)) (GetFeed feed_url :: trace w)).
Proof.
  intros H. cbn [process_feeds]. unfold mbind at 1, M_bind at 1.
  pose proof (process_feed_run charref_sub env cfg feed_url w) as R.
  cbv zeta in R. rewrite H in R. rewrite R.
  apply bind_ret_id.
Qed.

Lemma feed_fetch_failure_isolated_witness :
  process_feeds Demo.no_charref (Demo.server FeedError None) Demo.cfg
    [Demo.feed_url; "http://example.org/other.rss"] Demo.start
  = process_feeds Demo.no_charref (Demo.server FeedError None) Demo.cfg
      ["http://example.org/other.rss"]
      (World empty_db 1 [GetFeed Demo.feed_url]).
Proof.
  apply (feed_fetch_failure_isolated Demo.no_charref (Demo.server FeedError None)
           Demo.cfg Demo.feed_url ["http://example.org/other.rss"] Demo.start).
  reflexivity.
Defined.



(** ** Invariants of a run *)

(** A property [I] of the world is kept by a run when the primitive steps
    keep it; the article row and the seen row of an extracted item are
    written together, and the translation is whatever the configuration
    makes of it. *)
Section RunInvariant.

Variable charref_sub : string -> string.
Variable env : Env.
Variable cfg : config.
Variable I : world -> Prop.

Hypothesis I_clock : forall d t t' tr, I (World d t tr) -> I (World d t' tr).
Hypothesis I_article :
  forall d t tr u l, I (World d t tr) -> I (World d t (GetArticle u l :: tr)).
Hypothesis I_feed :
  forall d t tr u, I (World d t tr) -> I (World d t (GetFeed u :: tr)).
Hypothesis I_feed_row :
  forall d t tr u row, I (World d t tr) -> I (World (replace_feed u row d) t tr).
Hypothesis I_seen :
  forall d t tr u row,
    I (World d t tr) -> I (World (insert_or_ignore_seen u row d) t tr).
Hypothesis I_store :
  forall d t tr u arow srow,
    I (World d t tr) ->
    I (World (insert_or_ignore_seen u srow (insert_or_update_article u arow d)) t tr).
Hypothesis I_translate :
  String.eqb (cfg_translator cfg) "openai" = true ->
  forall texts, preserves I (translate_openai_en2zh env texts cfg).

Lemma invariant_process_item (feed_url : string) (it : dict (option string)) :
  preserves I (process_item charref_sub env cfg feed_url it).
Proof.
  unfold process_item.
  destruct (dict_lookup "_uid" it) as [[uid|]|];
    try apply preserves_raise_bind.
  apply preserves_ret_bind.
  apply preserves_bind.
  { apply preserves_try_except.
    - apply preserves_bind; [|intros; apply preserves_ret].
      apply (preserves_get_article env I (fun _ => True)); auto.
    - apply preserves_bind; [|intros; apply preserves_ret].
      apply (preserves_mark_seen env I (fun _ => True)); auto. }
  intros [soup|]; [|apply preserves_ret].
  apply preserves_bind; [apply preserves_lift|]. intros jsonld_obj.
  apply preserves_bind; [apply preserves_lift|]. intros fields_from_jsonld.
  apply preserves_bind; [apply preserves_lift|]. intros fallback_fields.
  apply preserves_bind.
  { destruct (String.eqb (cfg_translator cfg) "openai") eqn:E;
      [|apply preserves_ret].
    apply preserves_bind; [now apply I_translate|].
    intros [|? [|? [|? ?]]]; first [apply preserves_raise | apply preserves_ret]. }
  intros cn [d t tr] Hw. apply I_clock with t. apply I_store. exact Hw.
Qed.

Lemma invariant_process_items (feed_url : string)
    (items : list (dict (option string))) :
  preserves I (process_items charref_sub env cfg feed_url items).
Proof.
  induction items as [|it rest IH]; simpl; [apply preserves_ret|].
  apply preserves_bind; [apply invariant_process_item|]. intros na.
  apply preserves_bind; [exact IH|]. intros. apply preserves_ret.
Qed.

Lemma invariant_process_feed (feed_url : string) :
  preserves I (process_feed charref_sub env cfg feed_url).
Proof.
  intros w Hw. unfold process_feed.
  apply bind_keeps; [exact Hw|]. intros conn w0 _ Hw0.
  apply bind_keeps.
  { apply preserves_try_except; [|apply preserves_ret|exact Hw0].
    apply preserves_bind; [apply preserves_fetch_feed; auto|].
    intros r. apply preserves_ret. }
  intros [response|] w1 _ Hw1; [|exact Hw1].
  apply bind_keeps; [apply preserves_feed_items; auto|].
  intros items w2 _ Hw2.
  apply bind_keeps; [exact Hw2|]. intros conn2 w3 E3 Hw3.
  apply bind_keeps; [|intros; assumption].
  now apply invariant_process_items.
Qed.

Lemma invariant_process_feeds (urls : list string) :
  preserves I (process_feeds charref_sub env cfg urls).
Proof.
  induction urls as [|feed_url rest IH]; simpl; [apply preserves_ret|].
  apply preserves_bind; [apply invariant_process_feed|]. intros r.
  apply preserves_bind; [exact IH|]. intros. apply preserves_ret.
Qed.

Lemma invariant_run_pipeline : preserves I (run_pipeline charref_sub env cfg).
Proof.
  intros w Hw. unfold run_pipeline. destruct (cfg_feeds cfg) as [|feed_url rest].
  - exact Hw.
  - now apply (invariant_process_feeds (feed_url :: rest) w).
Qed.

End RunInvariant.

Lemma integrity_seen (u : string) (row : seen_row) (d : database) :
  articles_are_seen d -> articles_are_seen (insert_or_ignore_seen u row d).
Proof.
  intros H uid Ha.
  assert (Ha' : is_Some (articles d !! uid)).
  { unfold insert_or_ignore_seen in Ha. now destruct (seen d !! u). }
  destruct (H uid Ha') as [r Hr]. exists r.
  now apply insert_or_ignore_seen_keeps.
Qed.

Lemma integrity_store (u : string) (arow : article_row) (srow : seen_row)
    (d : database) :
  articles_are_seen d ->
  articles_are_seen (insert_or_ignore_seen u srow (insert_or_update_article u arow d)).
Proof.
  intros H uid Ha. destruct (decide (u = uid)) as [->|Hne].
  - rewrite insert_or_ignore_seen_lookup. eauto.
  - assert (Ha' : is_Some (articles d !! uid)).
    { unfold insert_or_ignore_seen in Ha.
      destruct (seen (insert_or_update_article u arow d) !! u);
        cbn [articles] in Ha;
        now rewrite insert_or_update_article_other in Ha. }
    destruct (H uid Ha') as [r Hr]. exists r.
    apply insert_or_ignore_seen_keeps. exact Hr.
Qed.

(** X19. A run keeps the articles table within the seen table: when every
    article row has a seen row of the same uid before the run, this still
    holds after it, also when the run ends on an exception; in particular
    every article row written on an empty database has its seen row. *)
Theorem run_keeps_articles_seen (charref_sub : string -> string) (env : Env)
    (cfg : config) (w : world) :
  articles_are_seen (db w) ->
  articles_are_seen (db (final_world (run_pipeline charref_sub env cfg w))).
Proof.
  apply (invariant_run_pipeline charref_sub env cfg
           (fun w => articles_are_seen (db w))); cbn [db]; auto.
  - intros d _ _ u row. apply integrity_seen.
  - intros d _ _ u arow srow. apply integrity_store.
  - intros _ texts. apply preserves_translate; auto.
Qed.

Lemma run_keeps_articles_seen_witness :
  articles_are_seen
    (db (final_world
           (run_pipeline Demo.no_charref
              (Demo.server (FeedBody None None (Some (Demo.rss2 Demo.twin_items)))
                           (Some Demo.titled_page))
              Demo.cfg Demo.start))).
Proof.
  apply run_keeps_articles_seen.
  intros uid [r Hr]. cbn in Hr. now rewrite lookup_empty in Hr.
Defined.

(** X20. Without the translator openai, or without an API key, a run sends
    no translation request: the translation requests of the trace after
    the run are those before it. *)
Theorem no_translation_request (charref_sub : string -> string) (env : Env)
    (cfg : config) (w : world) :
  cfg_translator cfg <> "openai" \/ truthy (cfg_openai_api_key cfg) = false ->
  translation_requests (trace (final_world (run_pipeline charref_sub env cfg w)))
  = translation_requests (trace w).
Proof.
  intros H.
  apply (invariant_run_pipeline charref_sub env cfg
           (fun w' => translation_requests (trace w') = translation_requests (trace w)));
    cbn [trace translation_requests List.filter]; auto.
  intros E texts. destruct H as [H|H].
  - apply String.eqb_eq in E. contradiction.
  - unfold translate_openai_en2zh. rewrite H. apply preserves_ret.
Qed.

Lemma no_translation_request_witness :
  translation_requests
    (trace (final_world
              (run_pipeline Demo.no_charref
                 (Demo.server (FeedBody None None (Some (Demo.rss2 Demo.twin_items)))
                              (Some Demo.titled_page))
                 Demo.cfg Demo.start)))
  = translation_requests (trace Demo.start).
Proof.
  apply no_translation_request. right. reflexivity.
Defined.

(** ** pick_first *)

(** X21. pick_first returns the first truthy value: the values before it
    are None or empty, it is a non-empty string, and the result is None
    exactly when every value is None or empty. *)
Theorem pick_first_spec (vals : list (option string)) :
  match pick_first vals with
  | Some s =>
      s <> EmptyString /\
      exists pre post,
        vals = (pre ++ Some s :: post)%list /\
        Forall (fun v => truthy v = false) pre
  | None => Forall (fun v => truthy v = false) vals
  end.
Proof.
  induction vals as [|v rest IH]; cbn [pick_first]; [constructor|].
  destruct (truthy v) eqn:E.
  - destruct v as [[|c s]|]; try discriminate. split; [discriminate|].
    exists nil, rest. split; [reflexivity|constructor].
  - destruct (pick_first rest) as [s|].
    + destruct IH as (Hs & pre & post & -> & Hpre). split; [exact Hs|].
      exists (v :: pre), post. split; [reflexivity|]. now constructor.
    + now constructor.
Qed.
